(** * Verification of the NanoOWL v3 streaming relay and worker protocol

    Shallow embedding of [pi_server.py] (MJPEGForwarder, PiServer,
    Handler) and of the two Jetson workers ([camera_worker.py],
    [detection_worker.py]).  Byte strings are [list Byte.byte]; Python's
    [bytes.find], slicing and [list.remove] are written out below. *)

From Stdlib Require Import List Bool Arith ZArith Lia String Ascii.
From Stdlib Require Import Strings.Byte.
Import ListNotations.
Open Scope list_scope.
Set Warnings "-register-all".

(* ------------------------------------------------------------------ *)
(** ** Python byte strings *)

Module PyBytes.

Definition bytes := list byte.

(** ASCII text as bytes (the [b"..."] literals of the source). *)
Definition b (s : string) : bytes := list_byte_of_string s.

Definition CRLF : bytes := [x0d; x0a].

(** [b"--frame\r\n"], the multipart boundary token. *)
Definition BOUNDARY : bytes := b "--frame" ++ CRLF.

(** [l] starts with [p]. *)
Fixpoint starts_with (p l : bytes) : bool :=
  match p, l with
  | [], _ => true
  | x :: p', y :: l' => Byte.eqb x y && starts_with p' l'
  | _ :: _, [] => false
  end.

(** Index of the first occurrence of [needle] in [hay]. *)
Fixpoint find0 (hay needle : bytes) : option nat :=
  if starts_with needle hay then Some 0
  else match hay with
       | [] => None
       | _ :: t => option_map S (find0 t needle)
       end.

(** [hay.find(needle, start)]: -1 when absent. *)
Definition py_find (hay needle : bytes) (start : Z) : Z :=
  let s := Z.to_nat start in
  if Nat.leb s (List.length hay) then
    match find0 (skipn s hay) needle with
    | Some k => Z.of_nat (s + k)
    | None => (-1)%Z
    end
  else (-1)%Z.

(** [needle in hay]. *)
Definition py_contains (hay needle : bytes) : bool :=
  match find0 hay needle with Some _ => true | None => false end.

(** [l[i:j]] and [l[i:]] for non-negative indices. *)
Definition py_slice (l : bytes) (i j : Z) : bytes :=
  firstn (Z.to_nat j - Z.to_nat i) (skipn (Z.to_nat i) l).

Definition py_slice_from (l : bytes) (i : Z) : bytes := skipn (Z.to_nat i) l.

(** [str(n).encode()] for a natural number. *)
Definition digit_byte (d : nat) : byte :=
  match Byte.of_nat (48 + d) with Some c => c | None => x30 end.

Fixpoint dec_aux (fuel n : nat) (acc : bytes) : bytes :=
  match fuel with
  | 0 => acc
  | S f =>
      let acc' := digit_byte (n mod 10) :: acc in
      if n <? 10 then acc' else dec_aux f (n / 10) acc'
  end.

Definition py_str_nat (n : nat) : bytes := dec_aux (S n) n [].

End PyBytes.
Import PyBytes.

(* ------------------------------------------------------------------ *)
(** ** MJPEGForwarder: slicing the upstream buffer and fanning out

    [forward_frames], lines 56-94 of [pi_server.py].  A consumer handle
    is abstract; [write_ok c] says whether [client.sendall] /
    [client.write] on [c] returns without raising. *)

Module Forwarder.
Section Fanout.

Variable client : Type.
Variable client_eq_dec : forall x y : client, {x = y} + {x <> y}.
Variable write_ok : client -> bool.

(** The [for client in self.clients: try ... except: dead_clients.append]
    loop: every registered client gets [frame_data]; the failing ones are
    collected in order. *)
Fixpoint send_to_all (clients : list client) (frame : bytes)
  : list (client * bytes) * list client :=
  match clients with
  | [] => ([], [])
  | c :: cs =>
      let '(w, dead) := send_to_all cs frame in
      ((c, frame) :: w, if write_ok c then dead else c :: dead)
  end.

(** [list.remove(x)]: drops the first element equal to [x]; [None] is
    the [ValueError] raised when [x] is absent. *)
Fixpoint py_remove (x : client) (l : list client) : option (list client) :=
  match l with
  | [] => None
  | y :: t => if client_eq_dec x y then Some t
              else option_map (cons y) (py_remove x t)
  end.

(** [for client in dead_clients: self.clients.remove(client)]. *)
Fixpoint remove_each (dead clients : list client) : option (list client) :=
  match dead with
  | [] => Some clients
  | d :: ds =>
      match py_remove d clients with
      | None => None
      | Some cl => remove_each ds cl
      end
  end.

(** The body of [with self.lock:]: writes performed and the new registry
    ([None] if a [remove] raised). *)
Definition fan_out (clients : list client) (frame : bytes)
  : list (client * bytes) * option (list client) :=
  let '(w, dead) := send_to_all clients frame in
  (w, remove_each dead clients).

(** The inner [while b"--frame\r\n" in buffer:] loop.  The result is the
    list of writes and either the new registry and buffer, or [None] when
    an exception escaped to the [except] of [forward_frames].  [fuel]
    bounds the iterations; [forward_buffer] gives it more than the loop
    can use (each iteration shortens the buffer). *)
Fixpoint split_frames (fuel : nat) (clients : list client) (buffer : bytes)
  : list (client * bytes) * option (list client * bytes) :=
  match fuel with
  | 0 => ([], Some (clients, buffer))
  | S fuel' =>
      if py_contains buffer BOUNDARY then
        let start := py_find buffer BOUNDARY 0 in
        let next_frame := py_find buffer BOUNDARY (start + 9) in
        if (next_frame =? -1)%Z then ([], Some (clients, buffer))
        else
          let frame_data := py_slice buffer start next_frame in
          let buffer' := py_slice_from buffer next_frame in
          let '(w, r) := fan_out clients frame_data in
          match r with
          | None => (w, None)
          | Some clients' =>
              let '(w', res) := split_frames fuel' clients' buffer' in
              (w ++ w', res)
          end
      else ([], Some (clients, buffer))
  end.

Definition forward_buffer (clients : list client) (buffer : bytes)
  : list (client * bytes) * option (list client * bytes) :=
  split_frames (S (List.length buffer)) clients buffer.

(** A valid FramedChunk on the wire: it begins with the boundary token
    and the token occurs nowhere else in it, also not across its end
    into the token that opens the next chunk (the spec's assumption that
    the token never occurs inside a payload). *)
Definition clean (c : bytes) : bool :=
  forallb (fun j => negb (starts_with BOUNDARY (skipn j (c ++ BOUNDARY))))
          (seq 1 (List.length c - 1)).

Definition valid_chunk (c : bytes) : bool :=
  starts_with BOUNDARY c && clean c.

(** Reference behaviour of the relay: each chunk, in order, is written
    unchanged to every consumer registered at that moment; consumers
    whose write fails are then dropped. *)
Fixpoint broadcast (chunks : list bytes) (reg : list client)
  : list (client * bytes) * list client :=
  match chunks with
  | [] => ([], reg)
  | ch :: t =>
      let '(w, r) := broadcast t (filter write_ok reg) in
      (map (fun c => (c, ch)) reg ++ w, r)
  end.

End Fanout.
End Forwarder.

(* ------------------------------------------------------------------ *)
(** ** The forwarder's reconnect loop as a state machine

    [forward_frames] (lines 42-112), [add_client] (114-118) and [stop]
    (120-127).  Each blocking call of the loop (connect, recv) is an event
    whose outcome the environment chooses; [EvCheck] is the thread
    evaluating the outer [while self.running]; [EvAddClient] is
    [add_client] from a gateway thread and [EvStop] is [stop()] from the
    main thread, either of which can come between any two steps of the
    forwarder thread.  [stop()] only clears [running] and closes the
    socket: closing shows up as later connect or recv outcomes, which the
    environment chooses.  The inner [while self.running] is evaluated
    right after the connect or the slicing that precedes it (no event of
    the forwarder thread lies in between; a [stop()] coming after that
    check is a [stop()] while the thread waits in [recv]).  The slicing
    loop that follows one [recv] is one step; the 5 s retry sleep is not
    timed. *)

Module Relay.
Import Forwarder.

(** Where the forwarder thread is:
    - [Retrying]: at the top of the outer loop, before its
      [while self.running] check (thread start, or the retry sleep after a
      session);
    - [Disconnected]: past that check, creating the socket and calling
      [connect];
    - [Streaming]: inside a session, waiting in [recv];
    - [Exited]: [forward_frames] has returned. *)
Inductive phase := Retrying | Disconnected | Streaming | Exited.

Section Relay.

Variable client : Type.
Variable client_eq_dec : forall x y : client, {x = y} + {x <> y}.
Variable write_ok : client -> bool.

Record relay := mk_relay {
  connected : bool;
  clients : list client;
  buffer : bytes;
  rphase : phase;
  running : bool
}.

Inductive event :=
| EvCheck                    (** the outer [while self.running] test *)
| EvConnect (ok : bool)      (** [jetson_socket.connect] returns / raises *)
| EvRecv (data : bytes)      (** [recv(4096)] returns [data] (empty: closed) *)
| EvRecvError                (** [recv] raises (timeout, reset, closed) *)
| EvAddClient (c : client)
| EvStop.

(** [MJPEGForwarder.__init__], its thread about to start [forward_frames]. *)
Definition init_relay : relay :=
  mk_relay false [] [] Retrying true.

(** Leaving a session: the [except] and/or [finally] of the outer [try]
    ([connected = False], socket closed); the local [buffer] is lost; the
    thread goes back to the top of the outer loop. *)
Definition drop_session (s : relay) : relay :=
  mk_relay false (clients s) [] Retrying (running s).

(** The inner [while self.running] test at the start of a session
    iteration. *)
Definition inner_check (s : relay) : relay :=
  if running s then s else drop_session s.

Definition step (s : relay) (e : event) : relay * list (client * bytes) :=
  match e with
  | EvAddClient c =>
      (mk_relay (connected s) (clients s ++ [c]) (buffer s) (rphase s) (running s), [])
  | EvStop =>
      (* [self.running = False]; the socket is closed *)
      (mk_relay (connected s) (clients s) (buffer s) (rphase s) false, [])
  | EvCheck =>
      match rphase s with
      | Retrying =>
          if running s then (mk_relay (connected s) (clients s) (buffer s) Disconnected true, [])
          else (mk_relay (connected s) (clients s) (buffer s) Exited false, [])
      | _ => (s, [])
      end
  | EvConnect ok =>
      match rphase s with
      | Disconnected =>
          if ok then (inner_check (mk_relay true (clients s) [] Streaming (running s)), [])
          else (drop_session s, [])
      | _ => (s, [])
      end
  | EvRecv data =>
      match rphase s with
      | Streaming =>
          match data with
          | [] => (drop_session s, [])           (* closed by Jetson: break *)
          | _ =>
              let '(w, r) :=
                forward_buffer client client_eq_dec write_ok
                               (clients s) (buffer s ++ data) in
              match r with
              | Some (cl, buf) =>
                  (inner_check (mk_relay (connected s) cl buf Streaming (running s)), w)
              | None => (drop_session s, w)
              end
          end
      | _ => (s, [])
      end
  | EvRecvError =>
      match rphase s with
      | Streaming => (drop_session s, [])
      | _ => (s, [])
      end
  end.

(** Running a trace of events; the writes are collected in order. *)
Fixpoint run (s : relay) (es : list event) : relay * list (client * bytes) :=
  match es with
  | [] => (s, [])
  | e :: es' =>
      let '(s1, w1) := step s e in
      let '(s2, w2) := run s1 es' in
      (s2, w1 ++ w2)
  end.

End Relay.

Arguments mk_relay {client}.
Arguments connected {client}.
Arguments clients {client}.
Arguments buffer {client}.
Arguments rphase {client}.
Arguments running {client}.
Arguments EvConnect {client}.
Arguments EvRecv {client}.
Arguments EvRecvError {client}.
Arguments EvAddClient {client}.
Arguments EvStop {client}.
Arguments init_relay {client}.
Arguments EvCheck {client}.
Arguments drop_session {client}.
Arguments inner_check {client}.

(** After [stop()], with the forwarder thread out of any session and not
    past its loop check: not running, not connected, and retrying or
    exited. *)
Definition stopped {client : Type} (s : relay client) : Prop :=
  running s = false /\ connected s = false /\ (rphase s = Retrying \/ rphase s = Exited).

End Relay.

(* ------------------------------------------------------------------ *)
(** ** Jetson workers: wire format, capture acquisition, stream loops *)

Module Workers.

(** The multipart part built in [stream_to_client]
    ([camera_worker.py] 168-170, [detection_worker.py] 493-495), with the
    declared length given separately so that malformed parts can be
    written down too. *)
Definition mjpeg_part (declared : nat) (payload : bytes) : bytes :=
  (BOUNDARY ++ b "Content-Type: image/jpeg" ++ CRLF)
  ++ (b "Content-Length: " ++ py_str_nat declared ++ CRLF ++ CRLF)
  ++ payload ++ CRLF.

(** What a worker sends for one encoded frame:
    [header += f"Content-Length: {len(jpeg_data)}..."]. *)
Definition frame_bytes (jpeg_data : bytes) : bytes :=
  mjpeg_part (List.length jpeg_data) jpeg_data.

Inductive backend := GStreamer | V4L2 | DShow | MSMF | VFW | DefaultBackend.
Inductive platform := Windows | NonWindows.

(** What the capture backends do on this machine: whether
    [cv2.VideoCapture(..., backend).isOpened()] holds, and the results of
    successive [read()] calls (missing entries fail). *)
Record capture_env := {
  opens : backend -> bool;
  warm_reads : backend -> list bool;
  mjpeg_connect_ok : bool   (** [init_mjpeg_input] connects *)
}.

Inductive source := Capture (bk : backend) | MjpegInput.

(** [for _ in range(n): ok, _ = camera.read(); if ok: break]. *)
Fixpoint warm_up (n : nat) (reads : list bool) : bool :=
  match n with
  | 0 => false
  | S n' =>
      match reads with
      | [] => false
      | r :: rs => if r then true else warm_up n' rs
      end
  end.

(** [CameraWorker.init_camera] ([camera_worker.py] 47-118); [None] is
    [return False]. *)
Definition cam_init_camera (p : platform) (env : capture_env) : option backend :=
  let camera :=
    match p with
    | NonWindows => if opens env GStreamer then Some GStreamer else None
    | Windows => None
    end in
  let camera :=
    match camera with
    | Some c => Some c
    | None =>
        match p with
        | Windows =>
            let cam := if opens env DShow then DShow
                       else if opens env MSMF then MSMF else DefaultBackend in
            if opens env cam then Some cam else None
        | NonWindows =>
            let cam := if opens env V4L2 then V4L2 else DefaultBackend in
            if opens env cam then Some cam else None
        end
    end in
  match camera with
  | None => None                               (* "Failed to open camera!" *)
  | Some c => if warm_up 3 (warm_reads env c) then Some c else None
  end.

(** [DetectionWorker.init_camera] ([detection_worker.py] 146-234). *)
Definition det_init_camera (p : platform) (env : capture_env) : option source :=
  let camera :=
    match p with
    | NonWindows => if opens env GStreamer then GStreamer else DefaultBackend
    | Windows =>
        match find (opens env) [DShow; MSMF; VFW] with
        | Some c => c
        | None => DefaultBackend
        end
    end in
  let camera_ok := opens env camera && warm_up 3 (warm_reads env camera) in
  if camera_ok then Some (Capture camera)
  else if mjpeg_connect_ok env then Some MjpegInput
  else None.

Inductive run_outcome := WorkerExited | WorkerServing.

(** The start of [run()]: [if not self.init_camera(): return]. *)
Definition worker_run_start {A} (init : option A) (server_ok : bool) : run_outcome :=
  match init with
  | None => WorkerExited
  | Some _ => if server_ok then WorkerServing else WorkerExited
  end.

(** Reference selection procedure of the spec (4.1): the first strategy
    in priority order that opens and survives the warm-up reads. *)
Definition spec_select (order : list backend) (env : capture_env) : option backend :=
  find (fun c => opens env c && warm_up 3 (warm_reads env c)) order.

(** Per-client stream loop state. *)
Record loop_state := mk_loop {
  bad_reads : nat;
  reads_done : nat;
  reinits : nat;
  frames_sent : nat;
  w_running : bool;   (** the worker's [self.running] *)
  exited : bool       (** the [while] loop has been left *)
}.

Definition loop_init : loop_state := mk_loop 0 0 0 0 true false.

Section StreamLoops.

(** [read_ok i]: whether the [i]-th read returns a frame;
    [reinit_ok j]: whether the [j]-th [init_camera()] call succeeds.
    Encoding and sending are taken to succeed, and no other thread clears
    [self.running]: the loops below are the runs where this holds. *)
Variable read_ok : nat -> bool.
Variable reinit_ok : nat -> bool.

(** [DetectionWorker.stream_to_client] (lines 453-518), [fuel]
    iterations of [while self.running]. *)
Fixpoint det_stream (fuel : nat) (st : loop_state) : loop_state :=
  match fuel with
  | 0 => st
  | S f =>
      if exited st then st
      else if negb (w_running st) then
        mk_loop (bad_reads st) (reads_done st) (reinits st) (frames_sent st) false true
      else
        let i := reads_done st in
        if read_ok i then
          (* bad_reads = 0; detect, encode, send *)
          det_stream f (mk_loop 0 (S i) (reinits st) (S (frames_sent st)) true false)
        else
          let br := S (bad_reads st) in
          if 10 <=? br then
            if reinit_ok (reinits st) then
              det_stream f (mk_loop 0 (S i) (S (reinits st)) (frames_sent st) true false)
            else
              (* self.running = False; break *)
              mk_loop br (S i) (S (reinits st)) (frames_sent st) false true
          else det_stream f (mk_loop br (S i) (reinits st) (frames_sent st) true false)
  end.

(** [CameraWorker.stream_to_client] (lines 144-194) with a camera whose
    [isOpened()] is [camera_open]. *)
Fixpoint cam_stream (camera_open : bool) (fuel : nat) (st : loop_state) : loop_state :=
  match fuel with
  | 0 => st
  | S f =>
      if exited st then st
      else if negb (w_running st) then
        mk_loop (bad_reads st) (reads_done st) (reinits st) (frames_sent st) false true
      else if negb camera_open then
        (* "Camera is not available": break *)
        mk_loop (bad_reads st) (reads_done st) (reinits st) (frames_sent st) true true
      else
        let i := reads_done st in
        if read_ok i then
          cam_stream camera_open f
            (mk_loop (bad_reads st) (S i) (reinits st) (S (frames_sent st)) true false)
        else
          (* sleep(0.01); continue *)
          cam_stream camera_open f
            (mk_loop (bad_reads st) (S i) (reinits st) (frames_sent st) true false)
  end.

End StreamLoops.
(** Counting invariant of the detection loop: every reinitialisation is
    paid for by 10 failed reads, and fewer than 10 failures are pending
    while the loop runs. *)
Definition det_inv (s : loop_state) : Prop :=
  if exited s then frames_sent s + 10 * reinits s <= reads_done s
  else bad_reads s < 10 /\ frames_sent s + 10 * reinits s + bad_reads s <= reads_done s.

End Workers.

(* ------------------------------------------------------------------ *)
(** ** CommandChannel: [DetectionWorker.start_command_server]

    One accepted connection of [loop()] (lines 406-432).  A Python [str]
    is represented by its UTF-8 bytes; [json.loads] is a parameter. *)

Module Command.

Fixpoint bytes_eqb (x y : bytes) : bool :=
  match x, y with
  | [], [] => true
  | a :: x', c :: y' => Byte.eqb a c && bytes_eqb x' y'
  | _, _ => false
  end.

Definition in_range (x lo hi : nat) : bool := (lo <=? x) && (x <=? hi).
Definition cont (c : byte) : bool := in_range (Byte.to_nat c) 128 191.

(** Strict UTF-8 as accepted by [bytes.decode()]: no overlong forms, no
    surrogates, nothing above U+10FFFF. *)
Fixpoint utf8_valid (l : bytes) : bool :=
  match l with
  | [] => true
  | c :: t =>
      let n := Byte.to_nat c in
      if n <? 128 then utf8_valid t
      else if in_range n 194 223 then
        match t with c1 :: t1 => cont c1 && utf8_valid t1 | _ => false end
      else if in_range n 224 239 then
        let lo := if n =? 224 then 160 else 128 in
        let hi := if n =? 237 then 159 else 191 in
        match t with
        | c1 :: c2 :: t2 => in_range (Byte.to_nat c1) lo hi && cont c2 && utf8_valid t2
        | _ => false
        end
      else if in_range n 240 244 then
        let lo := if n =? 240 then 144 else 128 in
        let hi := if n =? 244 then 143 else 191 in
        match t with
        | c1 :: c2 :: c3 :: t3 =>
            in_range (Byte.to_nat c1) lo hi && cont c2 && cont c3 && utf8_valid t3
        | _ => false
        end
      else false
  end.

(** [s.split(sep)] for a non-empty separator. *)
Fixpoint split_go (fuel : nat) (sep s cur : bytes) : list bytes :=
  match fuel with
  | 0 => [cur ++ s]
  | S f =>
      match s with
      | [] => [cur]
      | x :: t =>
          if starts_with sep s then cur :: split_go f sep (skipn (List.length sep) s) []
          else split_go f sep t (cur ++ [x])
      end
  end.

Definition py_split (s sep : bytes) : list bytes := split_go (S (List.length s)) sep s [].

Inductive json :=
| JNull
| JBool (v : bool)
| JNum (z : Z)
| JStr (s : bytes)
| JArr (l : list json)
| JObj (kv : list (bytes * json)).

(** [d.get(key)] on a decoded object (the last duplicate key wins). *)
Fixpoint obj_get (kv : list (bytes * json)) (key : bytes) : option json :=
  match kv with
  | [] => None
  | (k, v) :: t =>
      match obj_get t key with
      | Some v' => Some v'
      | None => if bytes_eqb k key then Some v else None
      end
  end.

Inductive py_exc :=
| UnicodeDecodeError
| JSONDecodeError
| NoAttributeGet     (** [cmd.get] on a non-dict *)
| NoAttributeSplit.  (** [text.split] on a non-str *)

(** What is written back: [b'OK'], [b'UNKNOWN'] or [str(e).encode()]. *)
Inductive response := RespOK | RespUNKNOWN | RespError (e : py_exc).

Record prompt_state := mk_prompt {
  prompt_text : json;
  prompts : list bytes
}.

Record conn_outcome := mk_outcome {
  sent : list response;
  conn_closed : bool;        (** [conn.close()] was called *)
  after : prompt_state;
  accept_loop_alive : bool   (** [loop()] goes on to the next [accept] *)
}.

Section Handler.

Variable json_loads : bytes -> option json.

Definition handle_connection (data : bytes) (st : prompt_state) : conn_outcome :=
  if negb (utf8_valid data) then
    (* [.decode()] raises outside the inner try: outer [except]: sleep *)
    mk_outcome [] false st true
  else
    match json_loads data with
    | None => mk_outcome [RespError JSONDecodeError] true st true
    | Some (JObj kv) =>
        let is_set_prompt :=
          match obj_get kv (b "cmd") with
          | Some (JStr c) => bytes_eqb c (b "set_prompt")
          | _ => false
          end in
        if is_set_prompt then
          let text := match obj_get kv (b "text") with Some t => t | None => JStr [] end in
          match text with
          | JStr t => mk_outcome [RespOK] true (mk_prompt text (py_split t (b ", "))) true
          | _ => mk_outcome [RespError NoAttributeSplit] true (mk_prompt text (prompts st)) true
          end
        else mk_outcome [RespUNKNOWN] true st true
    | Some _ => mk_outcome [RespError NoAttributeGet] true st true
    end.

End Handler.
(** [sep.join(l)]. *)
Fixpoint py_join (sep : bytes) (l : list bytes) : bytes :=
  match l with
  | [] => []
  | [x] => x
  | x :: t => x ++ sep ++ py_join sep t
  end.

End Command.

(* ------------------------------------------------------------------ *)
(** ** WorkerSupervisor: [PiServer.check_jetson_workers] (139-156) *)

Module Supervisor.

(** Outcome of [sock.connect_ex((JETSON_IP, port))]: an errno, or an
    exception. *)
Inductive connect_result := ConnectEx (errno : Z) | ConnectRaises.

Definition CAMERA_PORTS : list Z := [9000; 9001]%Z.
Definition PROBE_TIMEOUT : Z := 2.

Section Check.

Variable probe : Z -> connect_result.

(** The attempts made, as [(port, timeout)], and the returned pair. *)
Fixpoint check_ports (ports : list Z) : list (Z * Z) * (bool * option Z) :=
  match ports with
  | [] => ([], (true, None))
  | port :: rest =>
      let attempt := (port, PROBE_TIMEOUT) in
      match probe port with
      | ConnectEx 0 =>
          let '(a, r) := check_ports rest in (attempt :: a, r)
      | ConnectEx _ => ([attempt], (false, Some port))
      | ConnectRaises => ([attempt], (false, Some port))
      end
  end.

Definition check_jetson_workers : list (Z * Z) * (bool * option Z) :=
  check_ports CAMERA_PORTS.

Definition probe_ok (port : Z) : bool :=
  match probe port with ConnectEx 0 => true | _ => false end.

End Check.
End Supervisor.

(* ------------------------------------------------------------------ *)
(** ** Client handler threads and the capture handle

    One loop iteration of a StreamServer client handler as a sequence of
    atomic actions; a camera [read()] takes time, so it is split into
    its start and its end.  Threads interleave freely; [Acquire] blocks
    while another thread holds [camera_lock]. *)

Module Threads.

Inductive action :=
| Acquire      (** enter [with self.camera_lock:] *)
| ReadBegin    (** [camera.read()] starts *)
| ReadEnd      (** [camera.read()] returns *)
| Release      (** leave the [with] block *)
| Annotate     (** [detect_objects] *)
| Encode       (** [encode_frame] *)
| Send.        (** [client_socket.sendall] *)

(** [CameraWorker.stream_to_client], lines 149-170. *)
Definition camera_handler : list action :=
  [Acquire; ReadBegin; ReadEnd; Release; Encode; Send].

(** [DetectionWorker.stream_to_client] with [read_frame] (308-313),
    lines 460-495: no lock is taken. *)
Definition detection_handler : list action :=
  [ReadBegin; ReadEnd; Annotate; Encode; Send].

Record sched := mk_sched {
  lock_owner : option nat;
  pcs : list nat          (** next action of each handler thread *)
}.

Definition sched_init (n : nat) : sched := mk_sched None (repeat 0 n).

Fixpoint set_nth (l : list nat) (i v : nat) : list nat :=
  match l, i with
  | [], _ => []
  | _ :: t, 0 => v :: t
  | x :: t, S i' => x :: set_nth t i' v
  end.

(** Thread [t] performs its next action; [None] if it is blocked or
    does not exist. *)
Definition tstep (body : list action) (t : nat) (s : sched) : option sched :=
  match nth_error (pcs s) t with
  | None => None
  | Some pc =>
      match nth_error body pc with
      | None => None
      | Some a =>
          let pc' := if S pc =? List.length body then 0 else S pc in
          let ps := set_nth (pcs s) t pc' in
          match a with
          | Acquire =>
              match lock_owner s with
              | None => Some (mk_sched (Some t) ps)
              | Some _ => None
              end
          | Release => Some (mk_sched None ps)
          | _ => Some (mk_sched (lock_owner s) ps)
          end
      end
  end.

(** Run a schedule (the thread chosen at each step). *)
Fixpoint trun (body : list action) (ts : list nat) (s : sched) : option sched :=
  match ts with
  | [] => Some s
  | t :: ts' =>
      match tstep body t s with
      | None => None
      | Some s' => trun body ts' s'
      end
  end.

(** Thread [t] is inside [camera.read()]. *)
Definition reading (body : list action) (s : sched) (t : nat) : bool :=
  match nth_error (pcs s) t with
  | Some pc =>
      match nth_error body pc with Some ReadEnd => true | _ => false end
  | None => false
  end.

End Threads.

(* ------------------------------------------------------------------ *)
(** ** EdgeGateway: [Handler.do_GET] and [serve_camera_stream] *)

Module Gateway.

(** [s.split("/")] for a one-character separator. *)
Fixpoint split_char (sep : ascii) (s : string) : list string :=
  match s with
  | EmptyString => [EmptyString]
  | String c t =>
      if Ascii.eqb c sep then EmptyString :: split_char sep t
      else
        match split_char sep t with
        | [] => [String c EmptyString]
        | h :: r => String c h :: r
        end
  end.

(** [str.isspace()] on a character of the path, which [http.server]
    decodes as ISO-8859-1: the characters [int()] strips. *)
Definition is_space (c : ascii) : bool :=
  let n := Ascii.nat_of_ascii c in
  ((9 <=? n) && (n <=? 13)) || ((28 <=? n) && (n <=? 32)) || (n =? 133) || (n =? 160).

Fixpoint strip_left (l : list ascii) : list ascii :=
  match l with
  | c :: t => if is_space c then strip_left t else l
  | [] => []
  end.

Definition py_strip (l : list ascii) : list ascii := rev (strip_left (rev (strip_left l))).

Definition digit_val (c : ascii) : option Z :=
  let n := Ascii.nat_of_ascii c in
  if (48 <=? n) && (n <=? 57) then Some (Z.of_nat (n - 48)) else None.

(** Digits with single underscores between them: the value and the
    number of digits. *)
Fixpoint digits_value (l : list ascii) (acc : Z) (n : nat) (after_digit : bool)
  : option (Z * nat) :=
  match l with
  | [] => if after_digit then Some (acc, n) else None
  | c :: t =>
      match digit_val c with
      | Some d => digits_value t (acc * 10 + d) (S n) true
      | None =>
          if Ascii.eqb c "_"%char && after_digit then digits_value t acc n false
          else None
      end
  end.

(** The digits after the sign.  CPython refuses a decimal string of more
    than 640 digits that also has more than [sys.get_int_max_str_digits()]
    digits (4300 by default, 0 for no limit) with a [ValueError]. *)
Definition int_digits (max_str_digits : nat) (l : list ascii) : option Z :=
  match digits_value l 0 0 false with
  | Some (v, n) =>
      if Nat.ltb 640 n && Nat.ltb 0 max_str_digits && Nat.ltb max_str_digits n then None
      else Some v
  | None => None
  end.

(** [int(s)] on a string of the path, base 10; [None] is [ValueError]. *)
Definition py_int (max_str_digits : nat) (s : string) : option Z :=
  match py_strip (list_ascii_of_string s) with
  | c :: t =>
      if Ascii.eqb c "-"%char then option_map Z.opp (int_digits max_str_digits t)
      else if Ascii.eqb c "+"%char then int_digits max_str_digits t
      else int_digits max_str_digits (c :: t)
  | [] => None
  end.

(** [l[i]] with Python's negative indices; [None] is [IndexError]. *)
Definition py_index {A} (l : list A) (i : Z) : option A :=
  if (0 <=? i)%Z then nth_error l (Z.to_nat i)
  else if (- Z.of_nat (List.length l) <=? i)%Z
       then nth_error l (Z.to_nat (Z.of_nat (List.length l) + i))
       else None.

Record forwarder := mk_forwarder { camera_id : nat; port : Z }.

(** [PiServer.start]: one forwarder per entry of [CAMERA_PORTS]. *)
Definition make_forwarders (ports : list Z) : list forwarder :=
  map (fun ip => mk_forwarder (fst ip) (snd ip)) (combine (seq 0 (List.length ports)) ports).

Inductive http_outcome :=
| MainPage
| CameraStream (f : forwarder)    (** 200, client registered with [f] *)
| Unavailable503 (f : forwarder)  (** [f] still not connected after 10 s *)
| NotFound404
| StreamException                 (** caught by [except Exception] and logged *)
| OtherRoute.

Section Routes.

(** [forwarder.connected] at the end of the bounded 10 s wait. *)
Variable connected_after_wait : forwarder -> bool.
(** [sys.get_int_max_str_digits()] of the server process. *)
Variable max_str_digits : nat.

Definition serve_camera_stream (fwds : list forwarder) (path : string) : http_outcome :=
  match py_index (split_char "/"%char path) 2 with
  | None => StreamException
  | Some seg =>
      match py_int max_str_digits seg with
      | None => StreamException
      | Some cid =>
          if (Z.of_nat (List.length fwds) <=? cid)%Z then NotFound404
          else
            match py_index fwds cid with
            | None => StreamException
            | Some f => if connected_after_wait f then CameraStream f else Unavailable503 f
            end
      end
  end.

Definition do_GET (fwds : list forwarder) (path : string) : http_outcome :=
  if String.eqb path "/" then MainPage
  else if String.prefix "/camera/" path then serve_camera_stream fwds path
  else OtherRoute.

End Routes.
End Gateway.

(* ------------------------------------------------------------------ *)
(** ** The detection worker's MJPEG input: [init_mjpeg_input] and
    [read_mjpeg_frame] ([detection_worker.py] 236-306)

    The socket is the sequence of what its successive [recv(4096)] calls
    return; the end of the sequence, or an empty chunk, is the peer
    closing the connection ([b""]).  Header text is decoded to Unicode
    code points ([Z]).  The parts of Python's behaviour that come from
    the Unicode database are parameters: [str.lower] on non-ASCII code
    points and the decimal value of non-ASCII digits; [cv2.imdecode]
    succeeding is a parameter too. *)

Module MjpegReader.
Import Command.

(** [bytes.decode(errors="ignore")]: strict UTF-8 (as in [utf8_valid]);
    a byte that does not start a well-formed sequence is dropped and
    decoding resumes at the next byte. *)
Fixpoint decode_ignore (l : bytes) : list Z :=
  match l with
  | [] => []
  | c :: t =>
      let n := Byte.to_nat c in
      if n <? 128 then Z.of_nat n :: decode_ignore t
      else if in_range n 194 223 then
        match t with
        | c1 :: t1 =>
            if cont c1
            then Z.of_nat ((n - 192) * 64 + (Byte.to_nat c1 - 128)) :: decode_ignore t1
            else decode_ignore t
        | [] => []
        end
      else if in_range n 224 239 then
        let lo := if n =? 224 then 160 else 128 in
        let hi := if n =? 237 then 159 else 191 in
        match t with
        | c1 :: c2 :: t2 =>
            if in_range (Byte.to_nat c1) lo hi && cont c2
            then Z.of_nat ((n - 224) * 4096 + (Byte.to_nat c1 - 128) * 64
                           + (Byte.to_nat c2 - 128)) :: decode_ignore t2
            else decode_ignore t
        | _ => decode_ignore t
        end
      else if in_range n 240 244 then
        let lo := if n =? 240 then 144 else 128 in
        let hi := if n =? 244 then 143 else 191 in
        match t with
        | c1 :: c2 :: c3 :: t3 =>
            if in_range (Byte.to_nat c1) lo hi && cont c2 && cont c3
            then Z.of_nat ((n - 240) * 262144 + (Byte.to_nat c1 - 128) * 4096
                           + (Byte.to_nat c2 - 128) * 64 + (Byte.to_nat c3 - 128))
                 :: decode_ignore t3
            else decode_ignore t
        | _ => decode_ignore t
        end
      else decode_ignore t
  end.

(** A Python [str] literal of the source, as code points. *)
Definition str_z (s : string) : list Z :=
  map (fun c => Z.of_nat (Ascii.nat_of_ascii c)) (list_ascii_of_string s).

(** [s.startswith(p)] on code points. *)
Fixpoint zprefix (p l : list Z) : bool :=
  match p, l with
  | [], _ => true
  | x :: p', y :: l' => Z.eqb x y && zprefix p' l'
  | _ :: _, [] => false
  end.

(** [s.split(sep)] for a non-empty separator. *)
Fixpoint zsplit_go (fuel : nat) (sep s cur : list Z) : list (list Z) :=
  match fuel with
  | 0 => [cur ++ s]
  | S f =>
      match s with
      | [] => [cur]
      | x :: t =>
          if zprefix sep s then cur :: zsplit_go f sep (skipn (List.length sep) s) []
          else zsplit_go f sep t (cur ++ [x])
      end
  end.

Definition str_split (s sep : list Z) : list (list Z) :=
  zsplit_go (S (List.length s)) sep s [].

(** [s.split(sep, 1)]: [Some (before, after)] when [sep] occurs, [None]
    when the result is the one-element list [[s]]. *)
Fixpoint split_once (sep : Z) (s : list Z) : option (list Z * list Z) :=
  match s with
  | [] => None
  | c :: t =>
      if Z.eqb c sep then Some ([], t)
      else option_map (fun ab => (c :: fst ab, snd ab)) (split_once sep t)
  end.

(** [str.isspace] for one code point. *)
Definition is_space_cp (c : Z) : bool :=
  (((9 <=? c) && (c <=? 13)) || ((28 <=? c) && (c <=? 32)) || (c =? 133) || (c =? 160)
  || (c =? 5760) || ((8192 <=? c) && (c <=? 8202)) || (c =? 8232) || (c =? 8233)
  || (c =? 8239) || (c =? 8287) || (c =? 12288))%Z.


Fixpoint lstrip_by (sp : Z -> bool) (s : list Z) : list Z :=
  match s with
  | c :: t => if sp c then lstrip_by sp t else s
  | [] => []
  end.

(** [s.strip()]. *)
Definition strip_z (s : list Z) : list Z :=
  rev (lstrip_by is_space_cp (rev (lstrip_by is_space_cp s))).

(** ASCII whitespace as skipped by [PyLong_FromString]. *)
Definition c_isspace (c : Z) : bool := (((9 <=? c) && (c <=? 13)) || (c =? 32))%Z.

(** Digits with single underscores between them; the value and the
    number of digits. *)
Fixpoint z_digits (l : list Z) (acc : Z) (n : nat) (after_digit : bool) : option (Z * nat) :=
  match l with
  | [] => if after_digit then Some (acc, n) else None
  | c :: t =>
      if ((48 <=? c) && (c <=? 57))%Z then z_digits t (acc * 10 + (c - 48))%Z (S n) true
      else if (c =? 95)%Z && after_digit then z_digits t acc n false
      else None
  end.

Section Unicode.

(** [str.lower] of a non-ASCII code point. *)
Variable uni_lower : Z -> list Z.
(** [unicodedata.decimal] of a non-ASCII code point. *)
Variable uni_decimal : Z -> option Z.
(** [sys.get_int_max_str_digits()]; 0 is no limit (and Pythons without
    the limit). *)
Variable max_str_digits : nat.
(** [cv2.imdecode] returns an image (neither [None] nor an exception). *)
Variable imdecode_ok : bytes -> bool.

Definition cp_lower (c : Z) : list Z :=
  if ((65 <=? c) && (c <=? 90))%Z then [(c + 32)%Z]
  else if (c <? 128)%Z then [c]
  else uni_lower c.

(** [s.lower()]. *)
Definition str_lower (s : list Z) : list Z := flat_map cp_lower s.

(** [_PyUnicode_TransformDecimalAndSpaceToASCII]. *)
Definition to_ascii_cp (c : Z) : Z :=
  (if c <? 127 then c
   else if is_space_cp c then 32
   else match uni_decimal c with Some d => 48 + d | None => 63 end)%Z.

(** [int(s)] for a [str] in base 10; [None] is [ValueError]. *)
Definition cp_int (s : list Z) : option Z :=
  let a := rev (lstrip_by c_isspace (rev (lstrip_by c_isspace (map to_ascii_cp s)))) in
  let '(neg, body) :=
    match a with
    | c :: t => if (c =? 45)%Z then (true, t) else if (c =? 43)%Z then (false, t) else (false, a)
    | [] => (false, a)
    end in
  match z_digits body 0 0 false with
  | None => None
  | Some (v, n) =>
      if Nat.ltb 640 n && Nat.ltb 0 max_str_digits && Nat.ltb max_str_digits n then None
      else Some (if neg then (- v)%Z else v)
  end.

Inductive len_result := LenNone | LenInvalid | Len (z : Z).

(** The [for line in headers:] loop: [Len] is [length = int(...)] and a
    [break]; [LenInvalid] is [int] raising. *)
Fixpoint parse_content_length (lines : list (list Z)) : len_result :=
  match lines with
  | [] => LenNone
  | line :: t =>
      if zprefix (str_z "content-length") (str_lower line) then
        match split_once 58 line with
        | Some (_, v) =>
            match cp_int (strip_z v) with
            | Some z => Len z
            | None => LenInvalid
            end
        | None => parse_content_length t
        end
      else parse_content_length t
  end.

End Unicode.

Definition CRLFCRLF : bytes := CRLF ++ CRLF.

(** [header_bytes.decode(errors="ignore").split("\r\n")]. *)
Definition header_lines (header_bytes : bytes) : list (list Z) :=
  str_split (decode_ignore header_bytes) [13; 10]%Z.

Inductive recv_event := RecvData (d : bytes) | RecvError.

(** [while b"\r\n\r\n" not in self.mjpeg_buffer: ...]: [HdrFound] with
    the index of the first [\r\n\r\n], or [HdrFail] when [recv] returned
    [b""] ([return None]) or raised. *)
Inductive hdr_result :=
| HdrFound (buf : bytes) (k : nat) (sock : list recv_event)
| HdrFail (buf : bytes) (sock : list recv_event).

Fixpoint header_loop (buf : bytes) (sock : list recv_event) : hdr_result :=
  match find0 buf CRLFCRLF with
  | Some k => HdrFound buf k sock
  | None =>
      match sock with
      | [] => HdrFail buf []
      | RecvData [] :: t => HdrFail buf t
      | RecvData c :: t => header_loop (buf ++ c) t
      | RecvError :: t => HdrFail buf t
      end
  end.

(** [while len(rest) < length: ...] on the local [rest]. *)
Fixpoint body_loop (rest : bytes) (length : Z) (sock : list recv_event)
  : option bytes * list recv_event :=
  if (Z.of_nat (List.length rest) <? length)%Z then
    match sock with
    | [] => (None, [])
    | RecvData [] :: t => (None, t)
    | RecvData c :: t => body_loop (rest ++ c) length t
    | RecvError :: t => (None, t)
    end
  else (Some rest, sock).

(** The index [i] of [l[:i]] and [l[i:]], negative [i] counting from the end. *)
Definition slice_index (len : nat) (i : Z) : nat :=
  if (0 <=? i)%Z then Z.to_nat i else Z.to_nat (Z.of_nat len + i).

Record mjpeg_state := mk_mjpeg {
  msock : option (list recv_event);   (** [self.mjpeg_socket] *)
  mbuf : bytes                         (** [self.mjpeg_buffer] *)
}.

(** [init_mjpeg_input]: the previous socket is closed, a new one
    connected, the buffer emptied; [None] is a failed connect. *)
Definition init_mjpeg_input (connect : option (list recv_event)) (st : mjpeg_state)
  : bool * mjpeg_state :=
  match connect with
  | Some sock => (true, mk_mjpeg (Some sock) [])
  | None => (false, mk_mjpeg None (mbuf st))
  end.

Section Reader.

Variable uni_lower : Z -> list Z.
Variable uni_decimal : Z -> option Z.
Variable max_str_digits : nat.
Variable imdecode_ok : bytes -> bool.

(** [read_mjpeg_frame]: the JPEG bytes handed to [cv2.imdecode] when
    it yields a frame, [None] for every [return None]. *)
Definition read_mjpeg_frame (st : mjpeg_state) : option bytes * mjpeg_state :=
  match msock st with
  | None => (None, st)
  | Some sock =>
      match header_loop (mbuf st) sock with
      | HdrFail buf sock' => (None, mk_mjpeg (Some sock') buf)
      | HdrFound buf k sock' =>
          let header_bytes := firstn k buf in
          let rest := skipn (k + 4) buf in
          match parse_content_length uni_lower uni_decimal max_str_digits
                  (header_lines header_bytes) with
          | LenNone => (None, mk_mjpeg (Some sock') rest)
          | LenInvalid => (None, mk_mjpeg (Some sock') buf)
          | Len length =>
              match body_loop rest length sock' with
              | (None, sock'') => (None, mk_mjpeg (Some sock'') buf)
              | (Some rest', sock'') =>
                  let i := slice_index (List.length rest') length in
                  let jpeg_bytes := firstn i rest' in
                  let buf1 := skipn i rest' in
                  let buf2 := if starts_with CRLF buf1 then skipn 2 buf1 else buf1 in
                  (if imdecode_ok jpeg_bytes then Some jpeg_bytes else None,
                   mk_mjpeg (Some sock'') buf2)
              end
          end
      end
  end.

(** [n] successive calls, as [stream_to_client] makes through
    [read_frame] when there is no capture. *)
Fixpoint read_frames (n : nat) (st : mjpeg_state) : list (option bytes) * mjpeg_state :=
  match n with
  | 0 => ([], st)
  | S n' =>
      let '(r, st1) := read_mjpeg_frame st in
      let '(rs, st2) := read_frames n' st1 in
      (r :: rs, st2)
  end.

End Reader.

(** Code point of an ASCII byte, and the decimal digits. *)
Definition cpz (c : byte) : Z := Z.of_nat (Byte.to_nat c).

Definition is_digit (c : byte) : Prop := 48 <= Byte.to_nat c <= 57.

(** Value of a run of ASCII digits, as [z_digits] accumulates it. *)
Definition dval (l : list Z) (acc : Z) : Z :=
  fold_left (fun a c => (a * 10 + (c - 48))%Z) l acc.

(** The header of a part as [stream_to_client] writes it, up to the
    digits of its length ([Workers.mjpeg_part]). *)
Definition part_head : bytes :=
  BOUNDARY ++ b "Content-Type: image/jpeg" ++ CRLF ++ b "Content-Length: ".

(** The socket delivers exactly these non-empty chunks, then [b""]. *)
Definition chunked (sock : option (list recv_event)) (chunks : list bytes) : Prop :=
  sock = Some (map RecvData chunks) /\ Forall (fun c => c <> []) chunks.

End MjpegReader.

(** Closes a boolean fact about the code point of a decimal digit, given
    [exists k, k < 10 /\ c = 48 + k]. *)
Ltac digit_bool E :=
  let k := fresh "k" in let Hk := fresh "Hk" in let Ek := fresh "Ek" in
  destruct E as (k & Hk & Ek); rewrite ?Ek;
  do 10 (destruct k as [|k]; [reflexivity|]); lia.

(** Case analysis on every [match] left in the goal. *)
Ltac case_matches :=
  repeat match goal with
         | |- context [match ?x with _ => _ end] => destruct x
         end.

(* ================================================================== *)
(** * Proofs *)

(** ** Facts about [starts_with] and [find0] *)

Module BytesFacts.

Lemma starts_with_app p l m :
  starts_with p l = true -> starts_with p (l ++ m) = true.
Proof.
  revert l; induction p as [|x p IH]; intros [|y l] H; simpl in *; try easy.
  apply andb_true_iff in H as [H1 H2]. now rewrite H1, (IH _ H2).
Qed.

Lemma starts_with_length p l :
  starts_with p l = true -> List.length p <= List.length l.
Proof.
  revert l; induction p as [|x p IH]; intros [|y l] H; simpl in *; try easy; try lia.
  apply andb_true_iff in H as [_ H2]. specialize (IH _ H2). lia.
Qed.

Lemma starts_with_app_long p l m :
  List.length p <= List.length l -> starts_with p (l ++ m) = starts_with p l.
Proof.
  revert l; induction p as [|x p IH]; intros [|y l] H; simpl in *; try easy; try lia.
  rewrite IH by lia. reflexivity.
Qed.

Lemma starts_with_refl p m : starts_with p (p ++ m) = true.
Proof.
  induction p as [|x p IH]; simpl; [reflexivity|].
  now rewrite Byte.byte_dec_lb, IH.
Qed.

Lemma starts_with_split p l :
  starts_with p l = true -> l = p ++ skipn (List.length p) l.
Proof.
  revert l; induction p as [|x p IH]; intros [|y l] H; simpl in *; try easy.
  apply andb_true_iff in H as [H1 H2].
  apply Byte.byte_dec_bl in H1. subst. f_equal. now apply IH.
Qed.

Lemma starts_with_nil_inv p : starts_with p [] = true -> p = [].
Proof. destruct p; simpl; easy. Qed.

Lemma find0_len l n k :
  find0 l n = Some k -> k + List.length n <= List.length l.
Proof.
  revert k; induction l as [|x t IH]; intros k H; simpl in H.
  - destruct (starts_with n []) eqn:E; inversion H; subst.
    apply starts_with_nil_inv in E. subst. simpl. lia.
  - destruct (starts_with n (x :: t)) eqn:E.
    + inversion H; subst. apply starts_with_length in E. simpl in *. lia.
    + destruct (find0 t n) as [k'|] eqn:F; simpl in H; inversion H; subst.
      specialize (IH _ eq_refl). simpl. lia.
Qed.

Lemma find0_app l m n k :
  find0 l n = Some k -> find0 (l ++ m) n = Some k.
Proof.
  revert k; induction l as [|x t IH]; intros k H.
  - simpl in H. destruct (starts_with n []) eqn:E; inversion H; subst.
    apply starts_with_nil_inv in E. subst. destruct m; reflexivity.
  - pose proof (find0_len _ _ _ H) as Hl.
    simpl in H |- *.
    destruct (starts_with n (x :: t)) eqn:E.
    + pose proof (starts_with_app _ _ m E) as E'. simpl in E'.
      rewrite E'. exact H.
    + destruct (find0 t n) as [k'|] eqn:F; simpl in H; inversion H; subst.
      pose proof (find0_len _ _ _ F) as Hl'.
      assert (E' : starts_with n ((x :: t) ++ m) = false)
        by (rewrite starts_with_app_long by (simpl; lia); exact E).
      simpl in E'. rewrite E'. rewrite (IH _ eq_refl). reflexivity.
Qed.

Lemma find0_some l n k :
  (forall j, j < k -> starts_with n (skipn j l) = false) ->
  starts_with n (skipn k l) = true ->
  find0 l n = Some k.
Proof.
  revert l; induction k as [|k IH]; intros l Hb Hk.
  - destruct l; simpl in *; rewrite Hk; reflexivity.
  - assert (H0 : starts_with n l = false) by (apply (Hb 0); lia).
    destruct l as [|x t].
    + simpl in Hk. apply starts_with_nil_inv in Hk. subst. discriminate.
    + simpl. rewrite H0. rewrite (IH t).
      * reflexivity.
      * intros j Hj. apply (Hb (S j)). lia.
      * exact Hk.
Qed.

Lemma find0_none l n :
  (forall j, j <= List.length l -> starts_with n (skipn j l) = false) ->
  find0 l n = None.
Proof.
  induction l as [|x t IH]; intros H; simpl.
  - specialize (H 0 (le_n 0)). simpl in H. rewrite H. reflexivity.
  - pose proof (H 0 ltac:(lia)) as H0. simpl in H0. rewrite H0.
    rewrite IH; [reflexivity|].
    intros j Hj. apply (H (S j)). simpl. lia.
Qed.

End BytesFacts.

(** ** The forwarder's fan-out and slicing *)

Module ForwarderFacts.
Import BytesFacts Forwarder.

#[local] Arguments BOUNDARY : simpl never.

Lemma boundary_length : List.length BOUNDARY = 9.
Proof. reflexivity. Qed.

Lemma firstn_length_app (l m : bytes) : firstn (List.length l) (l ++ m) = l.
Proof. induction l as [|x l IH]; simpl; [reflexivity|]. now rewrite IH. Qed.

Lemma skipn_length_app (l m : bytes) : skipn (List.length l) (l ++ m) = m.
Proof. induction l as [|x l IH]; simpl; [reflexivity|]. exact IH. Qed.

Lemma skipn_app_le (n : nat) (l m : bytes) :
  n <= List.length l -> skipn n (l ++ m) = skipn n l ++ m.
Proof.
  intros H. rewrite skipn_app. replace (n - List.length l) with 0 by lia. reflexivity.
Qed.

Lemma clean_spec c :
  clean c = true ->
  forall p, 1 <= p < List.length c ->
  starts_with BOUNDARY (skipn p (c ++ BOUNDARY)) = false.
Proof.
  unfold clean. intros H p Hp.
  rewrite forallb_forall in H.
  assert (Hin : In p (seq 1 (List.length c - 1))) by (apply in_seq; lia).
  specialize (H p Hin). now apply negb_true_iff in H.
Qed.

(** A valid chunk followed by more data that opens with the token: the
    loop finds the token at 0 and the next one right after the chunk. *)
Lemma chunk_boundaries c rest :
  valid_chunk c = true -> starts_with BOUNDARY rest = true ->
  py_contains (c ++ rest) BOUNDARY = true /\
  py_find (c ++ rest) BOUNDARY 0 = 0%Z /\
  py_find (c ++ rest) BOUNDARY 9 = Z.of_nat (List.length c).
Proof.
  unfold valid_chunk. intros Hv Hr. apply andb_true_iff in Hv as [Hs Hc].
  pose proof (starts_with_length _ _ Hs) as Hlen. rewrite boundary_length in Hlen.
  assert (H0 : find0 (c ++ rest) BOUNDARY = Some 0).
  { apply (find0_some _ _ 0); [intros; lia|]. exact (starts_with_app _ _ rest Hs). }
  split; [unfold py_contains; now rewrite H0|].
  split.
  { unfold py_find. change (Z.to_nat 0) with 0%nat. simpl skipn. rewrite H0.
    replace (Nat.leb 0 _) with true by reflexivity. reflexivity. }
  unfold py_find. change (Z.to_nat 9) with 9%nat.
  rewrite length_app.
  replace (Nat.leb 9 (List.length c + List.length rest)) with true
    by (symmetry; apply Nat.leb_le; lia).
  rewrite skipn_app_le by lia.
  rewrite (find0_some _ _ (List.length c - 9)).
  - cbn beta iota. f_equal. lia.
  - intros j Hj.
    rewrite skipn_app_le by (rewrite length_skipn; lia).
    rewrite skipn_skipn.
    rewrite (starts_with_split _ _ Hr), app_assoc.
    rewrite starts_with_app_long by (rewrite length_app; lia).
    rewrite <- skipn_app_le by lia.
    apply clean_spec; [exact Hc | lia].
  - replace (List.length c - 9) with (List.length (skipn 9 c))
      by (rewrite length_skipn; reflexivity).
    rewrite skipn_length_app. exact Hr.
Qed.

(** The last, still incomplete chunk: no second token, so it stays in
    the buffer. *)
Lemma last_chunk_boundaries c :
  valid_chunk c = true ->
  py_contains c BOUNDARY = true /\
  py_find c BOUNDARY 0 = 0%Z /\
  py_find c BOUNDARY 9 = (-1)%Z.
Proof.
  intros Hv. pose proof Hv as Hv'.
  unfold valid_chunk in Hv. apply andb_true_iff in Hv as [Hs Hc].
  pose proof (starts_with_length _ _ Hs) as Hlen. rewrite boundary_length in Hlen.
  assert (H0 : find0 c BOUNDARY = Some 0).
  { apply (find0_some _ _ 0); [intros; lia|]. exact Hs. }
  split; [unfold py_contains; now rewrite H0|].
  split.
  { unfold py_find. change (Z.to_nat 0) with 0%nat. simpl skipn. now rewrite H0. }
  unfold py_find. change (Z.to_nat 9) with 9%nat.
  replace (Nat.leb 9 (List.length c)) with true by (symmetry; apply Nat.leb_le; lia).
  rewrite find0_none; [reflexivity|].
  intros j Hj. rewrite length_skipn in Hj. rewrite skipn_skipn.
  destruct (Nat.lt_ge_cases (j + 9) (List.length c)) as [Hlt|Hge].
  - destruct (starts_with BOUNDARY (skipn (j + 9) c)) eqn:E; [|reflexivity].
    apply (starts_with_app _ _ BOUNDARY) in E.
    rewrite <- skipn_app_le in E by lia.
    rewrite (clean_spec _ Hc (j + 9)) in E by lia. discriminate.
  - rewrite skipn_all2 by lia. reflexivity.
Qed.

Section Fanout.

Variable client : Type.
Variable client_eq_dec : forall x y : client, {x = y} + {x <> y}.
Variable write_ok : client -> bool.

Lemma send_to_all_spec cl frame :
  send_to_all client write_ok cl frame =
  (map (fun c => (c, frame)) cl, filter (fun c => negb (write_ok c)) cl).
Proof.
  induction cl as [|c cl IH]; simpl; [reflexivity|].
  rewrite IH. destruct (write_ok c); reflexivity.
Qed.

Lemma remove_each_cons_notin ds x l :
  ~ In x ds ->
  remove_each client client_eq_dec ds (x :: l) =
  option_map (cons x) (remove_each client client_eq_dec ds l).
Proof.
  revert l; induction ds as [|d ds IH]; intros l Hn; simpl; [reflexivity|].
  destruct (client_eq_dec d x) as [->|Hne].
  - exfalso. apply Hn. now left.
  - destruct (py_remove client client_eq_dec d l) as [l'|]; simpl; [|reflexivity].
    apply IH. intros Hi. apply Hn. now right.
Qed.

Lemma remove_each_dead cl :
  remove_each client client_eq_dec (filter (fun c => negb (write_ok c)) cl) cl =
  Some (filter write_ok cl).
Proof.
  induction cl as [|x cl IH]; simpl; [reflexivity|].
  destruct (write_ok x) eqn:Ex; simpl.
  - rewrite remove_each_cons_notin, IH; [reflexivity|].
    intros Hi. apply filter_In in Hi as [_ Hf]. rewrite Ex in Hf. discriminate.
  - destruct (client_eq_dec x x) as [_|Hne]; [exact IH|].
    exfalso. now apply Hne.
Qed.

(** One pass of the fan-out: every registered consumer is written the
    same bytes, and exactly the consumers whose write failed are gone. *)
Lemma fan_out_spec cl frame :
  fan_out client client_eq_dec write_ok cl frame =
  (map (fun c => (c, frame)) cl, Some (filter write_ok cl)).
Proof.
  unfold fan_out. rewrite send_to_all_spec. now rewrite remove_each_dead.
Qed.

Lemma chunks_rest_start chunks last :
  Forall (fun c => valid_chunk c = true) chunks -> valid_chunk last = true ->
  starts_with BOUNDARY (List.concat chunks ++ last) = true.
Proof.
  intros Hf Hl. destruct chunks as [|c t]; cbn [List.concat app].
  - unfold valid_chunk in Hl. now apply andb_true_iff in Hl as [H _].
  - inversion Hf as [|? ? Hc _]; subst. unfold valid_chunk in Hc.
    apply andb_true_iff in Hc as [H _]. rewrite <- app_assoc.
    now apply starts_with_app.
Qed.

(** The slicing loop on a buffer made of valid chunks followed by a
    pending chunk: the complete chunks are forwarded one by one, as they
    are, and the pending one is kept. *)
Lemma split_frames_chunks chunks last cl fuel :
  Forall (fun c => valid_chunk c = true) chunks -> valid_chunk last = true ->
  List.length chunks < fuel ->
  split_frames client client_eq_dec write_ok fuel cl (List.concat chunks ++ last) =
  (fst (broadcast client write_ok chunks cl),
   Some (snd (broadcast client write_ok chunks cl), last)).
Proof.
  revert cl fuel; induction chunks as [|c t IH]; intros cl fuel Hf Hl Hfuel;
    (destruct fuel as [|f]; [simpl in Hfuel; lia|]).
  - cbn [List.concat app].
    destruct (last_chunk_boundaries _ Hl) as (Hc & Hs & Hn).
    cbn [split_frames]. rewrite Hc, Hs. simpl Z.add. rewrite Hn. reflexivity.
  - inversion Hf as [|? ? Hvc Hft]; subst.
    cbn [List.concat]. rewrite <- app_assoc.
    destruct (chunk_boundaries c (List.concat t ++ last) Hvc (chunks_rest_start _ _ Hft Hl))
      as (Hc & Hs & Hn).
    cbn [split_frames]. rewrite Hc, Hs. simpl Z.add. rewrite Hn.
    replace (Z.of_nat (List.length c) =? -1)%Z with false
      by (symmetry; apply Z.eqb_neq; lia).
    unfold py_slice, py_slice_from. simpl Z.to_nat. rewrite Nat2Z.id, Nat.sub_0_r.
    cbn [skipn]. rewrite firstn_length_app, skipn_length_app.
    rewrite fan_out_spec.
    simpl in Hfuel. rewrite IH by (auto; lia).
    cbn [broadcast]. destruct (broadcast client write_ok t (filter write_ok cl)).
    reflexivity.
Qed.


(** One iteration of the slicing loop, with the index arithmetic of
    [find], [start + 9] and the slices done. *)
Lemma split_frames_S f cl buf :
  split_frames client client_eq_dec write_ok (S f) cl buf =
  match find0 buf BOUNDARY with
  | None => ([], Some (cl, buf))
  | Some s =>
      match find0 (skipn (s + 9) buf) BOUNDARY with
      | None => ([], Some (cl, buf))
      | Some k =>
          let '(w, r) := fan_out client client_eq_dec write_ok cl
                           (firstn (9 + k) (skipn s buf)) in
          match r with
          | None => (w, None)
          | Some cl' =>
              let '(w', res) :=
                split_frames client client_eq_dec write_ok f cl' (skipn (s + 9 + k) buf) in
              (w ++ w', res)
          end
      end
  end.
Proof.
  cbn [split_frames]. unfold py_contains.
  destruct (find0 buf BOUNDARY) as [s|] eqn:F; [|reflexivity].
  pose proof (find0_len _ _ _ F) as Hl. rewrite boundary_length in Hl.
  assert (Hs : py_find buf BOUNDARY 0 = Z.of_nat s).
  { unfold py_find. change (Z.to_nat 0) with 0%nat. cbn [skipn]. rewrite F.
    reflexivity. }
  assert (Hn : py_find buf BOUNDARY (Z.of_nat s + 9) =
                match find0 (skipn (s + 9) buf) BOUNDARY with
                | Some k => Z.of_nat (s + 9 + k)
                | None => (-1)%Z
                end).
  { unfold py_find.
    replace (Z.to_nat (Z.of_nat s + 9)) with (s + 9) by lia.
    replace (Nat.leb (s + 9) (List.length buf)) with true
      by (symmetry; apply Nat.leb_le; lia).
    reflexivity. }
  rewrite Hs, Hn.
  destruct (find0 (skipn (s + 9) buf) BOUNDARY) as [k|] eqn:G.
  - replace (Z.of_nat (s + 9 + k) =? -1)%Z with false
      by (symmetry; apply Z.eqb_neq; lia).
    unfold py_slice, py_slice_from. rewrite !Nat2Z.id.
    replace (s + 9 + k - s) with (9 + k) by lia. reflexivity.
  - reflexivity.
Qed.

Lemma split_frames_rest_len f cl buf w cl' r :
  split_frames client client_eq_dec write_ok f cl buf = (w, Some (cl', r)) ->
  List.length r <= List.length buf.
Proof.
  revert cl buf w; induction f as [|f IH]; intros cl buf w H.
  - simpl in H. inversion H; subst. lia.
  - rewrite split_frames_S in H.
    destruct (find0 buf BOUNDARY) as [s|]; [|inversion H; subst; lia].
    destruct (find0 (skipn (s + 9) buf) BOUNDARY) as [k|]; [|inversion H; subst; lia].
    destruct (fan_out client client_eq_dec write_ok cl (firstn (9 + k) (skipn s buf)))
      as [w0 [cl0|]]; [|discriminate].
    destruct (split_frames client client_eq_dec write_ok f cl0 (skipn (s + 9 + k) buf))
      as [w1 res] eqn:E.
    inversion H; subst. apply IH in E. rewrite length_skipn in E. lia.
Qed.

(** Enough fuel: the result does not depend on it. *)
Lemma split_frames_fuel f1 f2 cl buf :
  List.length buf < f1 -> List.length buf < f2 ->
  split_frames client client_eq_dec write_ok f1 cl buf =
  split_frames client client_eq_dec write_ok f2 cl buf.
Proof.
  revert f2 cl buf; induction f1 as [|f1 IH]; intros f2 cl buf H1 H2; [lia|].
  destruct f2 as [|f2]; [lia|].
  rewrite !split_frames_S.
  destruct (find0 buf BOUNDARY) as [s|] eqn:F; [|reflexivity].
  pose proof (find0_len _ _ _ F) as Hl. rewrite boundary_length in Hl.
  destruct (find0 (skipn (s + 9) buf) BOUNDARY) as [k|] eqn:G; [|reflexivity].
  pose proof (find0_len _ _ _ G) as Hk. rewrite length_skipn, boundary_length in Hk.
  destruct (fan_out client client_eq_dec write_ok cl (firstn (9 + k) (skipn s buf)))
    as [w0 [cl0|]]; [|reflexivity].
  rewrite (IH f2); [reflexivity| |]; rewrite length_skipn; lia.
Qed.

(** The buffer left by the loop holds no complete chunk. *)
Lemma split_frames_rest_stable f cl buf w cl' r f' :
  List.length buf < f ->
  split_frames client client_eq_dec write_ok f cl buf = (w, Some (cl', r)) ->
  List.length r < f' ->
  split_frames client client_eq_dec write_ok f' cl' r = ([], Some (cl', r)).
Proof.
  revert cl buf w f'; induction f as [|f IH]; intros cl buf w f' Hf H Hf'; [lia|].
  destruct f' as [|f']; [lia|].
  pose proof H as H'.
  rewrite split_frames_S in H.
  destruct (find0 buf BOUNDARY) as [s|] eqn:F.
  2:{ inversion H; subst. rewrite split_frames_S, F. reflexivity. }
  pose proof (find0_len _ _ _ F) as Hl. rewrite boundary_length in Hl.
  destruct (find0 (skipn (s + 9) buf) BOUNDARY) as [k|] eqn:G.
  2:{ inversion H; subst. rewrite split_frames_S, F, G. reflexivity. }
  destruct (fan_out client client_eq_dec write_ok cl (firstn (9 + k) (skipn s buf)))
    as [w0 [cl0|]]; [|discriminate].
  destruct (split_frames client client_eq_dec write_ok f cl0 (skipn (s + 9 + k) buf))
    as [w1 res] eqn:E.
  inversion H; subst.
  eapply IH; [| exact E | exact Hf'].
  rewrite length_skipn. lia.
Qed.

(** Appending more received bytes to the buffer: the frames already
    complete are forwarded first, then the loop resumes on what was left
    plus the new bytes, as if the bytes had arrived together. *)
Lemma split_frames_app f cl buf d :
  List.length (buf ++ d) < f ->
  split_frames client client_eq_dec write_ok f cl (buf ++ d) =
  match split_frames client client_eq_dec write_ok f cl buf with
  | (w, None) => (w, None)
  | (w, Some (cl', r)) =>
      let '(w2, res2) := split_frames client client_eq_dec write_ok f cl' (r ++ d) in
      (w ++ w2, res2)
  end.
Proof.
  revert cl buf; induction f as [|f IH]; intros cl buf Hf; [lia|].
  rewrite (split_frames_S f cl buf).
  destruct (find0 buf BOUNDARY) as [s|] eqn:F.
  2:{ destruct (split_frames client client_eq_dec write_ok (S f) cl (buf ++ d)).
      reflexivity. }
  pose proof (find0_len _ _ _ F) as Hl. rewrite boundary_length in Hl.
  destruct (find0 (skipn (s + 9) buf) BOUNDARY) as [k|] eqn:G.
  2:{ destruct (split_frames client client_eq_dec write_ok (S f) cl (buf ++ d)).
      reflexivity. }
  pose proof (find0_len _ _ _ G) as Hk. rewrite length_skipn, boundary_length in Hk.
  rewrite split_frames_S, (find0_app _ _ _ _ F).
  rewrite skipn_app_le by lia. rewrite (find0_app _ _ _ _ G).
  rewrite skipn_app_le by lia. rewrite firstn_app.
  replace (9 + k - List.length (skipn s buf)) with 0 by (rewrite length_skipn; lia).
  rewrite app_nil_r.
  rewrite skipn_app_le by lia.
  destruct (fan_out client client_eq_dec write_ok cl (firstn (9 + k) (skipn s buf)))
    as [w0 [cl0|]]; [|reflexivity].
  rewrite length_app in Hf.
  rewrite IH by (rewrite length_app, length_skipn; lia).
  destruct (split_frames client client_eq_dec write_ok f cl0 (skipn (s + 9 + k) buf))
    as [w1 [[cl1 r1]|]] eqn:E; [|reflexivity].
  pose proof (split_frames_rest_len _ _ _ _ _ _ E) as Hr. rewrite length_skipn in Hr.
  rewrite (split_frames_fuel (S f) f) by (rewrite length_app; lia).
  destruct (split_frames client client_eq_dec write_ok f cl1 (r1 ++ d)) as [w2 res2].
  rewrite app_assoc. reflexivity.
Qed.

End Fanout.
End ForwarderFacts.

(** ** The relay state machine *)

Module RelayFacts.
Import BytesFacts Forwarder ForwarderFacts Relay Workers.

#[local] Arguments BOUNDARY : simpl never.

Section RelayProofs.

Variable client : Type.
Variable client_eq_dec : forall x y : client, {x = y} + {x <> y}.
Variable write_ok : client -> bool.


(** No exception ever leaves the slicing loop. *)
Lemma split_frames_no_exception f cl buf :
  exists w cl' r, split_frames client client_eq_dec write_ok f cl buf = (w, Some (cl', r)).
Proof.
  revert cl buf; induction f as [|f IH]; intros cl buf.
  - simpl. eauto.
  - rewrite split_frames_S.
    destruct (find0 buf BOUNDARY) as [s|]; [|eauto].
    destruct (find0 (skipn (s + 9) buf) BOUNDARY) as [k|]; [|eauto].
    rewrite fan_out_spec.
    destruct (IH (filter write_ok cl) (skipn (s + 9 + k) buf)) as (w & cl' & r & ->).
    eauto.
Qed.

Lemma forward_buffer_nil cl : forward_buffer client client_eq_dec write_ok cl [] = ([], Some (cl, [])).
Proof. reflexivity. Qed.

Lemma fwd_fuel f cl buf :
  List.length buf < f -> split_frames client client_eq_dec write_ok f cl buf = forward_buffer client client_eq_dec write_ok cl buf.
Proof. intros H. unfold forward_buffer. apply split_frames_fuel; lia. Qed.

(** Feeding received pieces to a streaming relay whose buffer holds no
    complete chunk is the same as slicing the buffer extended with all of
    them at once. *)
Lemma run_recv_pieces pieces s w cl' r :
  rphase s = Streaming -> running s = true ->
  Forall (fun p => p <> []) pieces ->
  forward_buffer client client_eq_dec write_ok (clients s) (buffer s) = ([], Some (clients s, buffer s)) ->
  forward_buffer client client_eq_dec write_ok (clients s) (buffer s ++ List.concat pieces) = (w, Some (cl', r)) ->
  run client client_eq_dec write_ok s (map EvRecv pieces) =
  (mk_relay (connected s) cl' r Streaming true, w).
Proof.
  revert s w cl' r; induction pieces as [|p ps IH]; intros s w cl' r Hph Hrn Hne Hst H.
  - cbn [List.concat] in H. rewrite app_nil_r, Hst in H. inversion H; subst.
    destruct s; simpl in *; subst. reflexivity.
  - inversion Hne as [|? ? Hp Hps]; subst.
    cbn [List.concat map run] in *.
    set (buf := buffer s) in *. set (cl := clients s) in *.
    destruct (forward_buffer client client_eq_dec write_ok cl (buf ++ p)) as [w1 res1] eqn:E1.
    assert (Happ := split_frames_app client client_eq_dec write_ok
                      (S (List.length (buf ++ p ++ List.concat ps))) cl (buf ++ p)
                      (List.concat ps)).
    specialize (Happ ltac:(rewrite !length_app; lia)).
    rewrite <- app_assoc in Happ. unfold forward_buffer in H. rewrite H in Happ.
    rewrite fwd_fuel in Happ by (rewrite !length_app; lia).
    rewrite E1 in Happ.
    destruct res1 as [[cl1 r1]|]; [|discriminate].
    assert (E1' := E1). unfold forward_buffer in E1'.
    pose proof (split_frames_rest_len client client_eq_dec write_ok _ _ _ _ _ _ E1') as Hr.
    rewrite fwd_fuel in Happ by (rewrite !length_app in *; lia).
    destruct (forward_buffer client client_eq_dec write_ok cl1 (r1 ++ List.concat ps))
      as [w2 res2] eqn:E2.
    inversion Happ; subst.
    assert (Hstep : step client client_eq_dec write_ok s (EvRecv p) =
                    (mk_relay (connected s) cl1 r1 Streaming true, w1)).
    { unfold step. rewrite Hph. destruct p as [|x p']; [contradiction|].
      fold buf cl. rewrite E1. unfold inner_check. cbn [running]. rewrite Hrn. reflexivity. }
    rewrite Hstep.
    rewrite (IH _ w2 cl' r); simpl; auto.
    unfold forward_buffer.
    eapply (split_frames_rest_stable client client_eq_dec write_ok); [| exact E1' | lia].
    lia.
Qed.

Lemma valid_chunks_len chunks :
  Forall (fun c => valid_chunk c = true) chunks ->
  List.length chunks <= List.length (List.concat chunks).
Proof.
  induction 1 as [|c t Hc _ IH]; cbn [List.concat]; simpl; [lia|].
  unfold valid_chunk in Hc. apply andb_true_iff in Hc as [Hs _].
  apply starts_with_length in Hs. rewrite boundary_length in Hs.
  rewrite length_app. lia.
Qed.

Lemma run_cons_fst s e es :
  fst (run client client_eq_dec write_ok s (e :: es)) =
  fst (run client client_eq_dec write_ok (fst (step client client_eq_dec write_ok s e)) es).
Proof.
  cbn [run]. destruct (step client client_eq_dec write_ok s e) as [s1 w1].
  cbn [fst]. destruct (run client client_eq_dec write_ok s1 es). reflexivity.
Qed.

(** The flag mirrors the phase of the loop. *)
Definition in_session (p : phase) : bool :=
  match p with Streaming => true | _ => false end.

Lemma step_flag_phase s e :
  connected s = in_session (rphase s) ->
  connected (fst (step client client_eq_dec write_ok s e)) =
  in_session (rphase (fst (step client client_eq_dec write_ok s e))).
Proof.
  destruct s as [c cl buf ph rn]; cbn [connected rphase]; intros ->.
  destruct e as [|ok|data| |x|]; unfold step; cbn [connected rphase clients buffer running];
    destruct ph; try reflexivity.
  - destruct rn; reflexivity.
  - destruct ok, rn; reflexivity.
  - destruct data as [|y data]; [reflexivity|].
    destruct (forward_buffer client client_eq_dec write_ok cl (buf ++ y :: data))
      as [w [[cl' r]|]]; [destruct rn|]; reflexivity.
Qed.

Lemma run_flag_phase es s :
  connected s = in_session (rphase s) ->
  connected (fst (run client client_eq_dec write_ok s es)) =
  in_session (rphase (fst (run client client_eq_dec write_ok s es))).
Proof.
  revert s; induction es as [|e es IH]; intros s H; [exact H|].
  rewrite run_cons_fst. apply IH, step_flag_phase, H.
Qed.

(** Without a successful connect the loop never reaches [Streaming]. *)
Lemma step_stays_disconnected s e :
  rphase s <> Streaming -> e <> EvConnect true ->
  rphase (fst (step client client_eq_dec write_ok s e)) <> Streaming.
Proof.
  destruct s as [c cl buf ph rn]; cbn [rphase]; intros Hs He.
  destruct e as [|ok|data| |x|]; unfold step; cbn [connected rphase clients buffer running];
    destruct ph; case_matches; cbn [rphase drop_session inner_check running] in *;
    try case_matches; cbn [rphase] in *; try discriminate; try contradiction.
Qed.

Lemma run_stays_disconnected es s :
  rphase s <> Streaming -> Forall (fun e => e <> EvConnect true) es ->
  rphase (fst (run client client_eq_dec write_ok s es)) <> Streaming.
Proof.
  intros Hs Hes; revert s Hs; induction Hes as [|e es He _ IH]; intros s Hs; [exact Hs|].
  rewrite run_cons_fst. apply IH, step_stays_disconnected; assumption.
Qed.

(** C1: for every relay about to connect, whatever the registered
    consumers, if the upstream stream is made of valid FramedChunks
    followed by the start of a next chunk, received in any pieces, then
    the relay writes each complete chunk unchanged, in order, to every
    consumer registered at that moment (dropping consumers whose write
    fails), which is [broadcast]; the bytes after the last boundary token
    stay in the buffer. *)
Theorem relay_forwards_chunks_verbatim s chunks last pieces :
  rphase s = Disconnected -> running s = true ->
  Forall (fun c => valid_chunk c = true) chunks -> valid_chunk last = true ->
  Forall (fun p => p <> []) pieces ->
  List.concat pieces = List.concat chunks ++ last ->
  run client client_eq_dec write_ok s (EvConnect true :: map EvRecv pieces) =
  (mk_relay true (snd (broadcast client write_ok chunks (clients s))) last Streaming true,
   fst (broadcast client write_ok chunks (clients s))).
Proof.
  intros Hph Hrun Hch Hl Hp Hcat.
  cbn [run]. unfold step at 1. rewrite Hph. unfold inner_check. cbn [running]. rewrite Hrun.
  rewrite (run_recv_pieces pieces (mk_relay true (clients s) [] Streaming true)
             (fst (broadcast client write_ok chunks (clients s)))
             (snd (broadcast client write_ok chunks (clients s))) last);
    cbn [rphase clients buffer connected running app]; auto.
  rewrite Hcat. unfold forward_buffer.
  apply (split_frames_chunks client client_eq_dec write_ok); auto.
  pose proof (valid_chunks_len chunks Hch). rewrite length_app. lia.
Qed.

(** C2 (amended): the relay does not read the [Content-Length] header.
    Every slice between two boundary tokens is forwarded as it is,
    whether or not its declared length is that of its payload; the
    workers' own chunks declare [len(jpeg_data)]; and a chunk whose next
    boundary token has not arrived is dropped, never forwarded, when the
    upstream closes the connection. *)
Theorem forwarder_ignores_content_length cl parts last :
  Forall (fun pr => valid_chunk (mjpeg_part (fst pr) (snd pr)) = true) parts ->
  valid_chunk last = true ->
  forward_buffer client client_eq_dec write_ok cl
    (List.concat (map (fun pr => mjpeg_part (fst pr) (snd pr)) parts) ++ last) =
  (fst (broadcast client write_ok (map (fun pr => mjpeg_part (fst pr) (snd pr)) parts) cl),
   Some (snd (broadcast client write_ok (map (fun pr => mjpeg_part (fst pr) (snd pr)) parts) cl),
         last))
  /\ (forall p, frame_bytes p = mjpeg_part (List.length p) p)
  /\ (forall s, rphase s = Streaming ->
        step client client_eq_dec write_ok s (EvRecv []) = (drop_session s, [])).
Proof.
  intros Hparts Hl. split; [|split].
  - assert (Hch : Forall (fun c => valid_chunk c = true)
                    (map (fun pr => mjpeg_part (fst pr) (snd pr)) parts))
      by (apply Forall_map; exact Hparts).
    unfold forward_buffer. apply (split_frames_chunks client client_eq_dec write_ok); auto.
    pose proof (valid_chunks_len _ Hch). rewrite length_app. lia.
  - intros p. reflexivity.
  - intros s Hs. unfold step. rewrite Hs. reflexivity.
Qed.


(** C4: in one pass of the fan-out every registered consumer is written
    the chunk, in registry order, failing or not; afterwards exactly the
    consumers whose write failed are gone from the registry; and a
    received piece of data never ends the session whatever the writes
    do: all complete chunks of the buffer are fanned out, and the loop
    goes on streaming unless [running] was cleared. *)
Theorem failed_write_evicts_only_that_consumer cl frame :
  fan_out client client_eq_dec write_ok cl frame =
    (map (fun c => (c, frame)) cl, Some (filter write_ok cl)) /\
  (forall c, In c (filter write_ok cl) <-> In c cl /\ write_ok c = true) /\
  (forall s data, rphase s = Streaming -> data <> [] ->
     snd (step client client_eq_dec write_ok s (EvRecv data))
       = fst (forward_buffer client client_eq_dec write_ok (clients s) (buffer s ++ data)) /\
     rphase (fst (step client client_eq_dec write_ok s (EvRecv data)))
       = (if running s then Streaming else Retrying) /\
     connected (fst (step client client_eq_dec write_ok s (EvRecv data)))
       = (running s && connected s) /\
     running (fst (step client client_eq_dec write_ok s (EvRecv data))) = running s).
Proof.
  split; [|split].
  - apply fan_out_spec.
  - intros c. apply filter_In.
  - intros s data Hs Hd. unfold step. rewrite Hs.
    destruct data as [|y data]; [contradiction|].
    unfold forward_buffer.
    destruct (split_frames_no_exception (S (List.length (buffer s ++ y :: data))) (clients s)
                (buffer s ++ y :: data)) as (w & cl' & r & ->).
    unfold inner_check. cbn [running]. destruct (running s); auto.
Qed.

End RelayProofs.

(** Witnesses at concrete inputs: two consumers, the second of which
    fails, and a stream of two frames cut at arbitrary places. *)
Lemma relay_forwards_chunks_verbatim_witness :
  run nat Nat.eq_dec (fun c => negb (c =? 1))
      (mk_relay false [0; 1] [] Disconnected true)
      (EvConnect true ::
       map EvRecv [firstn 5 (frame_bytes (b "ab") ++ frame_bytes (b "cd") ++ frame_bytes (b "e"));
                   skipn 5 (frame_bytes (b "ab") ++ frame_bytes (b "cd") ++ frame_bytes (b "e"))]) =
  (mk_relay true [0] (frame_bytes (b "e")) Streaming true,
   [(0, frame_bytes (b "ab")); (1, frame_bytes (b "ab")); (0, frame_bytes (b "cd"))]).
Proof.
  apply (relay_forwards_chunks_verbatim nat Nat.eq_dec (fun c => negb (c =? 1))
           (mk_relay false [0; 1] [] Disconnected true)
           [frame_bytes (b "ab"); frame_bytes (b "cd")] (frame_bytes (b "e"))).
  - reflexivity.
  - reflexivity.
  - repeat constructor.
  - vm_compute. reflexivity.
  - repeat constructor; vm_compute; discriminate.
  - vm_compute. reflexivity.
Defined.

Lemma forwarder_ignores_content_length_witness :
  forward_buffer nat Nat.eq_dec (fun _ => true) [0]
    (List.concat (map (fun pr => mjpeg_part (fst pr) (snd pr)) [(5, b "ab"); (2, b "cd")])
     ++ frame_bytes (b "e")) =
  ([(0, mjpeg_part 5 (b "ab")); (0, mjpeg_part 2 (b "cd"))], Some ([0], frame_bytes (b "e"))).
Proof.
  refine (proj1 (forwarder_ignores_content_length nat Nat.eq_dec (fun _ => true) [0]
                   [(5, b "ab"); (2, b "cd")] (frame_bytes (b "e")) _ _)).
  - repeat constructor.
  - vm_compute. reflexivity.
Defined.


Lemma failed_write_evicts_only_that_consumer_witness :
  fan_out nat Nat.eq_dec (fun c => negb (c =? 1)) [0; 1; 2] (frame_bytes (b "ab")) =
    ([(0, frame_bytes (b "ab")); (1, frame_bytes (b "ab")); (2, frame_bytes (b "ab"))],
     Some [0; 2]) /\
  snd (step nat Nat.eq_dec (fun c => negb (c =? 1))
         (mk_relay true [0; 1; 2] (frame_bytes (b "ab")) Streaming true)
         (EvRecv (frame_bytes (b "cd"))))
    = [(0, frame_bytes (b "ab")); (1, frame_bytes (b "ab")); (2, frame_bytes (b "ab"))] /\
  rphase (fst (step nat Nat.eq_dec (fun c => negb (c =? 1))
         (mk_relay true [0; 1; 2] (frame_bytes (b "ab")) Streaming true)
         (EvRecv (frame_bytes (b "cd"))))) = Streaming.
Proof.
  destruct (failed_write_evicts_only_that_consumer nat Nat.eq_dec (fun c => negb (c =? 1))
              [0; 1; 2] (frame_bytes (b "ab"))) as [H1 [_ H3]].
  destruct (H3 (mk_relay true [0; 1; 2] (frame_bytes (b "ab")) Streaming true)
              (frame_bytes (b "cd")) eq_refl ltac:(vm_compute; discriminate))
    as (W & P & _ & _).
  split; [exact H1|]. split; [|exact P].
  rewrite W. vm_compute. reflexivity.
Defined.

(** C2: a part declaring 5 bytes of payload but carrying 2 is forwarded
    to the consumer as it is. *)
Lemma forwarder_forwards_wrong_length :
  List.length (b "ab") <> 5 /\
  forward_buffer nat Nat.eq_dec (fun _ => true) [0]
    (mjpeg_part 5 (b "ab") ++ frame_bytes (b "xy")) =
  ([(0, mjpeg_part 5 (b "ab"))], Some ([0], frame_bytes (b "xy"))).
Proof. split; [discriminate | vm_compute; reflexivity]. Qed.

End RelayFacts.

(** ** Capture acquisition and the stream loops of the workers *)

Module WorkerFacts.
Import Workers.

Lemma cam_stream_failing_reads n k :
  cam_stream (fun _ => false) true n (mk_loop 0 k 0 0 true false) =
  mk_loop 0 (k + n) 0 0 true false.
Proof.
  revert k; induction n as [|n IH]; intros k; cbn [cam_stream].
  - rewrite Nat.add_0_r. reflexivity.
  - cbn [exited w_running negb reads_done bad_reads reinits frames_sent].
    rewrite IH. f_equal. lia.
Qed.

(** The detection worker, for contrast: with every read failing and the
    reinitialization failing too, the tenth failed read ends the loop
    and sets [running] to false. *)
Lemma det_stream_failing_reads f k :
  k < 10 -> 10 - k <= f ->
  det_stream (fun _ => false) (fun _ => false) f (mk_loop k k 0 0 true false) =
  mk_loop 10 10 1 0 false true.
Proof.
  revert k; induction f as [|f IH]; intros k Hk Hf; [lia|].
  cbn [det_stream exited w_running negb reads_done bad_reads reinits frames_sent].
  destruct (10 <=? S k) eqn:E.
  - apply Nat.leb_le in E. replace k with 9 by lia. reflexivity.
  - apply Nat.leb_gt in E. apply IH; lia.
Qed.

Lemma det_stream_fatal_after_budget f :
  10 <= f ->
  det_stream (fun _ => false) (fun _ => false) f loop_init = mk_loop 10 10 1 0 false true.
Proof. intros Hf. apply det_stream_failing_reads; lia. Qed.

(** C5: the camera worker has no retry budget.  With an opened capture
    whose every read fails, after any number [n] of loop iterations it
    has made [n] failed reads, never reinitialized the capture, and is
    still running, inside its loop. *)
Theorem camera_worker_retries_forever n :
  cam_stream (fun _ => false) true n loop_init = mk_loop 0 n 0 0 true false.
Proof. apply (cam_stream_failing_reads n 0). Qed.

(** C6 (amended): each worker takes the first backend of its priority
    order that reports opened, and only that one gets up to 3 warm-up
    reads.  If they all fail, or nothing opens, the camera worker fails
    ([return False], and [run] exits).  The detection worker instead
    falls back to the MJPEG input of the camera worker and fails only if
    that connect fails too.  A later backend is never tried after a
    warm-up failure. *)
Theorem capture_selection_order p env :
  cam_init_camera p env =
    match find (opens env) (match p with
                            | NonWindows => [GStreamer; V4L2; DefaultBackend]
                            | Windows => [DShow; MSMF; DefaultBackend]
                            end) with
    | Some c => if warm_up 3 (warm_reads env c) then Some c else None
    | None => None
    end /\
  det_init_camera p env =
    match find (opens env) (match p with
                            | NonWindows => [GStreamer; DefaultBackend]
                            | Windows => [DShow; MSMF; VFW; DefaultBackend]
                            end) with
    | Some c =>
        if warm_up 3 (warm_reads env c) then Some (Capture c)
        else if mjpeg_connect_ok env then Some MjpegInput else None
    | None => if mjpeg_connect_ok env then Some MjpegInput else None
    end /\
  (forall reads, warm_up 3 reads = existsb (fun r => r) (firstn 3 reads)) /\
  (forall ok, worker_run_start (@None backend) ok = WorkerExited) /\
  (forall ok, worker_run_start (@None source) ok = WorkerExited).
Proof.
  split; [|split; [|split; [|split]]]; try reflexivity.
  - unfold cam_init_camera; destruct p; cbn [find];
      [destruct (opens env DShow) eqn:E1, (opens env MSMF) eqn:E2,
                (opens env DefaultBackend) eqn:E3
      |destruct (opens env GStreamer) eqn:E1, (opens env V4L2) eqn:E2,
                (opens env DefaultBackend) eqn:E3];
      cbn zeta iota; rewrite ?E1, ?E2, ?E3; reflexivity.
  - unfold det_init_camera; destruct p; cbn [find];
      [destruct (opens env DShow) eqn:E1, (opens env MSMF) eqn:E2, (opens env VFW) eqn:E3,
                (opens env DefaultBackend) eqn:E4
      |destruct (opens env GStreamer) eqn:E1, (opens env DefaultBackend) eqn:E2];
      cbn zeta iota; rewrite ?E1, ?E2, ?E3, ?E4; reflexivity.
  - intros reads. destruct reads as [|r1 [|r2 [|r3 t]]];
      repeat match goal with r : bool |- _ => destruct r end; reflexivity.
Qed.

(** C6: on a Linux machine where the GStreamer pipeline opens but
    delivers no frame while the default backend works, the selection of
    the spec picks the default backend; the camera worker fails and the
    detection worker takes the MJPEG input. *)
Lemma warmup_failure_skips_working_backend :
  let env := {| opens := fun bk => match bk with GStreamer | DefaultBackend => true | _ => false end;
                warm_reads := fun bk => match bk with GStreamer => [false; false; false] | _ => [true] end;
                mjpeg_connect_ok := true |} in
  spec_select [GStreamer; V4L2; DefaultBackend] env = Some DefaultBackend /\
  cam_init_camera NonWindows env = None /\
  spec_select [GStreamer; DefaultBackend] env = Some DefaultBackend /\
  det_init_camera NonWindows env = Some MjpegInput.
Proof. vm_compute. repeat split. Qed.

End WorkerFacts.

(** ** The command channel *)

Module CommandFacts.
Import Command.

(** C7 (against the code): a request that is not valid UTF-8 gets no
    response at all and its connection is never closed: [.decode()]
    raises outside the inner [try], and the outer handler only sleeps.
    A decodable request gets exactly one response and the connection is
    closed; in both cases the accept loop goes on. *)
Theorem undecodable_request_gets_no_response json_loads data st :
  (utf8_valid data = false ->
   handle_connection json_loads data st = mk_outcome [] false st true) /\
  (utf8_valid data = true ->
   exists r, sent (handle_connection json_loads data st) = [r] /\
             conn_closed (handle_connection json_loads data st) = true /\
             accept_loop_alive (handle_connection json_loads data st) = true).
Proof.
  split; intros H; unfold handle_connection; rewrite H; [reflexivity|].
  cbn [negb].
  destruct (json_loads data) as [j|]; [|eexists; repeat split].
  destruct j as [| | | | |kv]; try (eexists; repeat split; fail).
  destruct (match obj_get kv (b "cmd") with
            | Some (JStr c) => bytes_eqb c (b "set_prompt")
            | _ => false end); [|eexists; repeat split].
  destruct (match obj_get kv (b "text") with Some t => t | None => JStr [] end);
    eexists; repeat split.
Qed.

Lemma undecodable_request_gets_no_response_witness :
  handle_connection (fun _ => None) [xff] (mk_prompt JNull []) =
  mk_outcome [] false (mk_prompt JNull []) true.
Proof.
  apply (proj1 (undecodable_request_gets_no_response (fun _ => None) [xff] (mk_prompt JNull []))).
  reflexivity.
Defined.

End CommandFacts.

(** ** The liveness check *)

Module SupervisorFacts.
Import Supervisor.

Section Probe.

Variable probe : Z -> connect_result.

Lemma check_ports_result ports :
  snd (check_ports probe ports) =
  match find (fun p => negb (probe_ok probe p)) ports with
  | None => (true, None)
  | Some p => (false, Some p)
  end.
Proof.
  induction ports as [|p t IH]; [reflexivity|].
  cbn [check_ports find]. unfold probe_ok at 1.
  destruct (probe p) as [[|e|e]|]; cbn [negb]; try reflexivity.
  destruct (check_ports probe t) as [a r]. exact IH.
Qed.

Lemma check_ports_all_ok ports :
  forallb (probe_ok probe) ports = true ->
  fst (check_ports probe ports) = map (fun q => (q, 2%Z)) ports.
Proof.
  induction ports as [|p t IH]; intros H; [reflexivity|].
  cbn [forallb] in H. apply andb_true_iff in H as [Hp Ht].
  cbn [check_ports]. unfold probe_ok in Hp.
  destruct (probe p) as [[|e|e]|]; try discriminate.
  specialize (IH Ht). destruct (check_ports probe t) as [a r].
  cbn [fst] in *. rewrite IH. reflexivity.
Qed.

Lemma check_ports_first_failure pre p post :
  forallb (probe_ok probe) pre = true -> probe_ok probe p = false ->
  fst (check_ports probe (pre ++ p :: post)) = map (fun q => (q, 2%Z)) (pre ++ [p]).
Proof.
  induction pre as [|q t IH]; intros Hpre Hp.
  - cbn [app check_ports]. unfold probe_ok in Hp.
    destruct (probe p) as [[|e|e]|]; first [discriminate | reflexivity].
  - cbn [forallb] in Hpre. apply andb_true_iff in Hpre as [Hq Ht].
    cbn [app check_ports]. unfold probe_ok in Hq.
    destruct (probe q) as [[|e|e]|]; try discriminate.
    specialize (IH Ht Hp). destruct (check_ports probe (t ++ p :: post)) as [a r].
    cbn [fst] in *. rewrite IH. reflexivity.
Qed.

Lemma find_negb_none ports :
  find (fun p => negb (probe_ok probe p)) ports = None <->
  forallb (probe_ok probe) ports = true.
Proof.
  induction ports as [|p t IH]; cbn [find forallb]; [tauto|].
  destruct (probe_ok probe p); cbn [negb andb]; [exact IH|].
  split; discriminate.
Qed.

(** C8: the check connects, with a timeout of 2 s, to the ports
    9000 and 9001 in order, up to the first one that fails; it returns
    [(True, None)] exactly when every connect succeeds, and otherwise
    [(False, port)] for the first failing port. *)
Theorem liveness_check_first_failing_port :
  CAMERA_PORTS = [9000; 9001]%Z /\
  snd (check_jetson_workers probe) =
    match find (fun p => negb (probe_ok probe p)) CAMERA_PORTS with
    | None => (true, None)
    | Some p => (false, Some p)
    end /\
  (snd (check_jetson_workers probe) = (true, None) <->
   forallb (probe_ok probe) CAMERA_PORTS = true) /\
  (forallb (probe_ok probe) CAMERA_PORTS = true ->
   fst (check_jetson_workers probe) = map (fun q => (q, 2%Z)) CAMERA_PORTS) /\
  (forall pre p post, CAMERA_PORTS = pre ++ p :: post ->
   forallb (probe_ok probe) pre = true -> probe_ok probe p = false ->
   fst (check_jetson_workers probe) = map (fun q => (q, 2%Z)) (pre ++ [p])).
Proof.
  unfold check_jetson_workers.
  split; [reflexivity|]. split; [apply check_ports_result|]. split; [|split].
  - rewrite check_ports_result, <- find_negb_none.
    destruct (find (fun p => negb (probe_ok probe p)) CAMERA_PORTS); split; congruence.
  - apply check_ports_all_ok.
  - intros pre p post E. rewrite E. apply check_ports_first_failure.
Qed.

End Probe.

Lemma liveness_check_first_failing_port_witness :
  fst (check_jetson_workers (fun q => if (q =? 9001)%Z then ConnectEx 111 else ConnectEx 0)) =
  [(9000, 2); (9001, 2)]%Z.
Proof.
  apply (proj2 (proj2 (proj2 (proj2 (liveness_check_first_failing_port
           (fun q => if (q =? 9001)%Z then ConnectEx 111 else ConnectEx 0)))))
           [9000%Z] 9001%Z []); reflexivity.
Defined.

End SupervisorFacts.

(** ** Client handler threads *)

Module ThreadFacts.
Import Threads.

Lemma set_nth_nth l i v j :
  nth_error (set_nth l i v) j =
  if Nat.eqb i j then option_map (fun _ => v) (nth_error l j) else nth_error l j.
Proof.
  revert i j; induction l as [|x t IH]; intros i j.
  - destruct i, j; cbn; try destruct (Nat.eqb _ _); reflexivity.
  - destruct i as [|i], j as [|j]; cbn [set_nth nth_error Nat.eqb option_map]; try reflexivity.
    apply IH.
Qed.

(** Every thread between its [Acquire] and its [Release] owns the lock. *)
Lemma camera_step_owner t s s' :
  (forall u pc, nth_error (pcs s) u = Some pc -> 1 <= pc <= 3 -> lock_owner s = Some u) ->
  tstep camera_handler t s = Some s' ->
  forall u pc, nth_error (pcs s') u = Some pc -> 1 <= pc <= 3 -> lock_owner s' = Some u.
Proof.
  intros I H u pc Hu Hpc. unfold tstep in H.
  destruct (nth_error (pcs s) t) as [pt|] eqn:Ht; [|discriminate].
  destruct pt as [|[|[|[|[|[|pt]]]]]]; cbn in H; try discriminate;
    try (destruct pt; cbn in H; discriminate);
    [destruct (lock_owner s) eqn:Hlo; [discriminate|] | | | | |];
    injection H as <-; cbn [pcs lock_owner] in *;
    rewrite set_nth_nth in Hu;
    (destruct (Nat.eqb_spec t u) as [<-|Htu];
     [cbn iota in Hu; rewrite Ht in Hu; cbn in Hu; injection Hu as <-
     |cbn iota in Hu]).
  - reflexivity.
  - pose proof (I u pc Hu Hpc) as X. discriminate X.
  - apply (I t 1); [exact Ht | lia].
  - apply (I u pc Hu Hpc).
  - apply (I t 2); [exact Ht | lia].
  - apply (I u pc Hu Hpc).
  - lia.
  - pose proof (I u pc Hu Hpc). pose proof (I t 3 Ht ltac:(lia)). congruence.
  - lia.
  - apply (I u pc Hu Hpc).
  - lia.
  - apply (I u pc Hu Hpc).
Qed.

Lemma camera_run_owner ts s s' :
  (forall u pc, nth_error (pcs s) u = Some pc -> 1 <= pc <= 3 -> lock_owner s = Some u) ->
  trun camera_handler ts s = Some s' ->
  forall u pc, nth_error (pcs s') u = Some pc -> 1 <= pc <= 3 -> lock_owner s' = Some u.
Proof.
  revert s; induction ts as [|t ts IH]; intros s I H.
  - injection H as <-. exact I.
  - cbn [trun] in H. destruct (tstep camera_handler t s) as [s1|] eqn:E; [|discriminate].
    apply (IH s1); [|exact H]. exact (camera_step_owner t s s1 I E).
Qed.

(** The camera worker, for contrast: under every schedule of any number
    of handler threads, no two of them are inside [camera.read()] at the
    same time. *)
Lemma camera_reads_exclusive n ts s t1 t2 :
  trun camera_handler ts (sched_init n) = Some s ->
  reading camera_handler s t1 = true -> reading camera_handler s t2 = true -> t1 = t2.
Proof.
  intros H R1 R2.
  assert (I0 : forall u pc, nth_error (pcs (sched_init n)) u = Some pc -> 1 <= pc <= 3 ->
                            lock_owner (sched_init n) = Some u).
  { intros u pc Hu Hpc. cbn [pcs sched_init] in Hu.
    apply nth_error_In, repeat_spec in Hu. lia. }
  pose proof (camera_run_owner ts _ s I0 H) as I.
  unfold reading in R1, R2.
  destruct (nth_error (pcs s) t1) as [p1|] eqn:E1; [|discriminate].
  destruct (nth_error (pcs s) t2) as [p2|] eqn:E2; [|discriminate].
  destruct p1 as [|[|[|[|[|[|p1]]]]]]; try discriminate R1; try (destruct p1; discriminate R1).
  destruct p2 as [|[|[|[|[|[|p2]]]]]]; try discriminate R2; try (destruct p2; discriminate R2).
  pose proof (I t1 2 E1 ltac:(lia)). pose proof (I t2 2 E2 ltac:(lia)). congruence.
Qed.

Lemma camera_reads_exclusive_witness :
  trun camera_handler [0; 0] (sched_init 2) = Some (mk_sched (Some 0) [2; 0]) /\ (0 : nat) = 0.
Proof.
  split; [reflexivity|].
  apply (camera_reads_exclusive 2 [0; 0] (mk_sched (Some 0) [2; 0]) 0 0); reflexivity.
Defined.

(** C9 (code bug: the claimed mutual exclusion fails): in the detection
    worker two client handler threads can be inside [camera.read()] at
    the same time: thread 0
    starts a read, then thread 1 starts one, and nothing blocks it, as
    [read_frame] takes no lock (in the camera worker the lock does
    exclude this). *)
Theorem detection_handlers_read_concurrently :
  trun detection_handler [0; 1] (sched_init 2) = Some (mk_sched None [1; 1]) /\
  reading detection_handler (mk_sched None [1; 1]) 0 = true /\
  reading detection_handler (mk_sched None [1; 1]) 1 = true.
Proof. repeat split. Qed.

End ThreadFacts.

(** ** The gateway's camera route *)

Module GatewayFacts.
Import Gateway.
Local Open Scope string_scope.

(** C10: a path [/camera/<id>] whose [<id>] parses as a negative
    integer no smaller than minus the number of forwarders passes the
    bounds check; the request is served from the forwarder at Python
    index [count + id] (a stream, or 503 if it never connects), never
    with 404. *)
Theorem negative_camera_id_served conn msd fwds path seg z :
  String.prefix "/camera/" path = true -> path <> "/" ->
  py_index (split_char "/"%char path) 2 = Some seg -> py_int msd seg = Some z ->
  (z < 0)%Z -> (- z <= Z.of_nat (List.length fwds))%Z ->
  exists f,
    nth_error fwds (Z.to_nat (Z.of_nat (List.length fwds) + z)) = Some f /\
    py_index fwds z = Some f /\
    do_GET conn msd fwds path = (if conn f then CameraStream f else Unavailable503 f) /\
    do_GET conn msd fwds path <> NotFound404.
Proof.
  intros Hp Hne Hs Hi Hz Hb.
  assert (Hlt : Z.to_nat (Z.of_nat (List.length fwds) + z) < List.length fwds) by lia.
  destruct (nth_error fwds (Z.to_nat (Z.of_nat (List.length fwds) + z))) as [f|] eqn:Hf;
    [|apply nth_error_None in Hf; lia].
  assert (Hidx : py_index fwds z = Some f).
  { unfold py_index.
    replace (0 <=? z)%Z with false by (symmetry; apply Z.leb_gt; lia).
    replace (- Z.of_nat (List.length fwds) <=? z)%Z with true
      by (symmetry; apply Z.leb_le; lia).
    exact Hf. }
  assert (Hget : do_GET conn msd fwds path =
                 (if conn f then CameraStream f else Unavailable503 f)).
  { unfold do_GET. destruct (String.eqb_spec path "/") as [E|_]; [contradiction|].
    rewrite Hp. unfold serve_camera_stream. rewrite Hs, Hi.
    replace (Z.of_nat (List.length fwds) <=? z)%Z with false
      by (symmetry; apply Z.leb_gt; lia).
    rewrite Hidx. reflexivity. }
  exists f. split; [reflexivity|]. split; [exact Hidx|]. split; [exact Hget|].
  rewrite Hget. destruct (conn f); discriminate.
Qed.

(** [/camera/-1] with the two configured cameras streams camera 1. *)
Lemma negative_camera_id_served_witness :
  do_GET (fun _ => true) 4300 (make_forwarders Supervisor.CAMERA_PORTS) "/camera/-1" =
  CameraStream (mk_forwarder 1 9001).
Proof.
  destruct (negative_camera_id_served (fun _ => true) 4300 (make_forwarders Supervisor.CAMERA_PORTS)
              "/camera/-1" "-1" (-1)%Z eq_refl ltac:(discriminate) eq_refl eq_refl
              ltac:(lia) ltac:(cbv; discriminate)) as (f & Hf & _ & Hg & _).
  vm_compute in Hf. injection Hf as <-. exact Hg.
Defined.

End GatewayFacts.

Module MjpegFacts.
Import Workers MjpegReader BytesFacts.

Lemma digit_byte_nat d : d < 10 -> Byte.to_nat (digit_byte d) = 48 + d.
Proof. intros H. do 10 (destruct d as [|d]; [reflexivity|]). lia. Qed.

Lemma dec_aux_digits f n acc :
  n < f ->
  exists D, dec_aux f n acc = D ++ acc /\ D <> [] /\ Forall is_digit D
            /\ dval (map cpz D) 0 = Z.of_nat n.
Proof.
  revert n acc; induction f as [|f IH]; intros n acc Hn; [lia|].
  cbn [dec_aux].
  assert (Hm : n mod 10 < 10) by (apply Nat.mod_upper_bound; lia).
  assert (Hd : is_digit (digit_byte (n mod 10)))
    by (unfold is_digit; rewrite digit_byte_nat by exact Hm; lia).
  destruct (n <? 10) eqn:E.
  - apply Nat.ltb_lt in E. exists [digit_byte (n mod 10)]. repeat split.
    + discriminate.
    + constructor; [exact Hd | constructor].
    + unfold dval. cbn [map fold_left]. unfold cpz.
      rewrite digit_byte_nat by exact Hm.
      rewrite Nat.mod_small by exact E. lia.
  - apply Nat.ltb_ge in E.
    destruct (IH (n / 10) (digit_byte (n mod 10) :: acc)) as (D & E1 & E2 & E3 & E4).
    { assert (n / 10 < n) by (apply Nat.div_lt; lia). lia. }
    exists (D ++ [digit_byte (n mod 10)]). repeat split.
    + rewrite E1, <- app_assoc. reflexivity.
    + destruct D; discriminate.
    + apply Forall_app. split; [exact E3 | constructor; [exact Hd | constructor]].
    + unfold dval in *. rewrite map_app, fold_left_app, E4. cbn [map fold_left].
      unfold cpz. rewrite digit_byte_nat by exact Hm.
      pose proof (Nat.div_mod_eq n 10). lia.
Qed.

Lemma py_str_nat_digits n :
  py_str_nat n <> [] /\ Forall is_digit (py_str_nat n)
  /\ dval (map cpz (py_str_nat n)) 0 = Z.of_nat n.
Proof.
  unfold py_str_nat. destruct (dec_aux_digits (S n) n [] ltac:(lia)) as (D & E1 & E2 & E3 & E4).
  rewrite E1, app_nil_r. auto.
Qed.

Lemma decode_ascii l :
  Forall (fun c => Byte.to_nat c < 128) l -> decode_ignore l = map cpz l.
Proof.
  induction 1 as [|c t Hc Ht IH]; [reflexivity|].
  cbn [decode_ignore]. apply Nat.ltb_lt in Hc. rewrite Hc, IH. reflexivity.
Qed.

Lemma digits_ascii D : Forall is_digit D -> Forall (fun c => Byte.to_nat c < 128) D.
Proof. intros H. eapply Forall_impl; [|exact H]. unfold is_digit. intros; lia. Qed.

Lemma zsplit_lines lines last f :
  Forall (fun l => ~ In 13%Z l) lines -> ~ In 13%Z last ->
  List.length (List.concat (map (fun l => l ++ [13; 10]%Z) lines) ++ last) < f ->
  zsplit_go f [13; 10]%Z (List.concat (map (fun l => l ++ [13; 10]%Z) lines) ++ last) []
  = lines ++ [last].
Proof.
  assert (Hno : forall A cur g, ~ In 13%Z A -> List.length A < g ->
            zsplit_go g [13; 10]%Z A cur = [cur ++ A]).
  { induction A as [|x A IH]; intros cur g HA Hg; destruct g as [|g]; try (cbn in Hg; lia).
    - cbn. rewrite app_nil_r. reflexivity.
    - cbn [zsplit_go zprefix].
      assert (Hx : (13 =? x)%Z = false) by (apply Z.eqb_neq; intros <-; apply HA; left; reflexivity).
      rewrite Hx. cbn [andb]. rewrite IH.
      + rewrite <- app_assoc. reflexivity.
      + intros Hi. apply HA. right. exact Hi.
      + cbn in Hg. lia. }
  assert (Hsep : forall A B cur g, ~ In 13%Z A -> List.length A + 2 + List.length B < g ->
            zsplit_go g [13; 10]%Z (A ++ 13 :: 10 :: B)%Z cur
            = (cur ++ A) :: zsplit_go (g - List.length A - 1) [13; 10]%Z B []).
  { induction A as [|x A IH]; intros B cur g HA Hg; destruct g as [|g]; try (cbn in Hg; lia).
    - cbn. rewrite app_nil_r, Nat.sub_0_r. reflexivity.
    - cbn [zsplit_go app zprefix].
      assert (Hx : (13 =? x)%Z = false) by (apply Z.eqb_neq; intros <-; apply HA; left; reflexivity).
      rewrite Hx. cbn [andb]. rewrite IH.
      + rewrite <- app_assoc. reflexivity.
      + intros Hi. apply HA. right. exact Hi.
      + cbn in Hg. lia. }
  revert f; induction lines as [|l lines IH]; intros f Hl Hlast Hf.
  - cbn in *. apply Hno; assumption.
  - inversion Hl as [|? ? Hl1 Hl2]; subst.
    cbn [map List.concat] in *. rewrite <- !app_assoc in *. cbn [app].
    rewrite Hsep.
    + cbn [app]. f_equal. apply IH; try assumption.
      rewrite !length_app in *. cbn in *. lia.
    + exact Hl1.
    + rewrite !length_app in *. cbn in *. lia.
Qed.

Lemma digit_cases d : is_digit d -> exists k, k < 10 /\ cpz d = Z.of_nat (48 + k).
Proof. unfold is_digit, cpz. intros H. exists (Byte.to_nat d - 48). split; [lia|]. f_equal. lia. Qed.

Lemma forallb_ascii l :
  forallb (fun c => Nat.ltb (Byte.to_nat c) 128) l = true ->
  Forall (fun c => Byte.to_nat c < 128) l.
Proof.
  intros H. apply Forall_forall. intros x Hx. rewrite forallb_forall in H.
  apply Nat.ltb_lt, H, Hx.
Qed.

Lemma not_in_existsb (x : Z) l : existsb (Z.eqb x) l = false -> ~ In x l.
Proof.
  intros H Hi. assert (existsb (Z.eqb x) l = true) by (apply existsb_exists; exists x; split; [exact Hi | apply Z.eqb_refl]).
  congruence.
Qed.

Lemma digits_not_in (x : Z) D :
  (x < 48)%Z -> Forall is_digit D -> ~ In x (map cpz D).
Proof.
  intros Hx HD Hi. apply in_map_iff in Hi as (d & Ed & Hd).
  rewrite Forall_forall in HD. specialize (HD d Hd). unfold is_digit, cpz in *. lia.
Qed.

Lemma lstrip_keep sp l : (forall x, In x l -> sp x = false) -> lstrip_by sp l = l.
Proof.
  destruct l as [|x t]; intros H; [reflexivity|]. cbn. rewrite (H x (or_introl eq_refl)). reflexivity.
Qed.

Lemma strip_keep sp l :
  (forall x, In x l -> sp x = false) -> rev (lstrip_by sp (rev (lstrip_by sp l))) = l.
Proof.
  intros H. rewrite (lstrip_keep sp l H). rewrite lstrip_keep.
  - apply rev_involutive.
  - intros x Hx. apply H. apply in_rev. exact Hx.
Qed.

Lemma z_digits_digits l acc n bb :
  Forall is_digit l -> (l <> [] \/ bb = true) ->
  z_digits (map cpz l) acc n bb = Some (dval (map cpz l) acc, n + List.length l).
Proof.
  intros Hl; revert acc n bb; induction Hl as [|d t Hd Ht IH]; intros acc n bb Hne.
  - destruct Hne as [Hne | ->]; [congruence|]. cbn. rewrite Nat.add_0_r. reflexivity.
  - cbn [map z_digits].
    assert (E : ((48 <=? cpz d) && (cpz d <=? 57))%Z = true) by digit_bool (digit_cases d Hd).
    rewrite E. rewrite IH by (right; reflexivity). cbn. f_equal. f_equal. lia.
Qed.

Section Parse.

Variable uni_lower : Z -> list Z.
Variable uni_decimal : Z -> option Z.
Variable max_str_digits : nat.

Lemma cp_int_digits D :
  Forall is_digit D -> D <> [] -> List.length D <= 640 ->
  cp_int uni_decimal max_str_digits (map cpz D) = Some (dval (map cpz D) 0).
Proof.
  intros HD Hne Hlen. unfold cp_int.
  assert (Ea : map (to_ascii_cp uni_decimal) (map cpz D) = map cpz D).
  { rewrite map_map. apply map_ext_in. intros d Hd. rewrite Forall_forall in HD.
    specialize (HD d Hd). unfold to_ascii_cp. digit_bool (digit_cases d HD). }
  rewrite Ea, strip_keep.
  2:{ intros x Hx. apply in_map_iff in Hx as (d & <- & Hd). rewrite Forall_forall in HD.
      specialize (HD d Hd). unfold c_isspace. digit_bool (digit_cases d HD). }
  destruct D as [|d D']; [congruence|].
  inversion HD as [|? ? Hd HD']; subst.
  assert (E1 : (cpz d =? 45)%Z = false) by digit_bool (digit_cases d Hd).
  assert (E2 : (cpz d =? 43)%Z = false) by digit_bool (digit_cases d Hd).
  cbn [map]. rewrite E1, E2.
  change (cpz d :: map cpz D') with (map cpz (d :: D')).
  rewrite z_digits_digits by (auto; left; discriminate).
  assert (E3 : Nat.ltb 640 (0 + List.length (d :: D')) = false) by (apply Nat.ltb_ge; cbn in *; lia).
  rewrite E3. reflexivity.
Qed.

Lemma str_lower_app a c : str_lower uni_lower (a ++ c) = str_lower uni_lower a ++ str_lower uni_lower c.
Proof. unfold str_lower. apply flat_map_app. Qed.

Lemma str_lower_digits D : Forall is_digit D -> str_lower uni_lower (map cpz D) = map cpz D.
Proof.
  induction 1 as [|d t Hd Ht IH]; [reflexivity|].
  cbn [map]. unfold str_lower in *. cbn [flat_map]. rewrite IH.
  assert (E : cp_lower uni_lower (cpz d) = [cpz d]) by (unfold cp_lower; digit_bool (digit_cases d Hd)).
  rewrite E. reflexivity.
Qed.

Lemma zprefix_app p x : zprefix p (p ++ x) = true.
Proof. induction p as [|a p IH]; cbn; [reflexivity|]. rewrite Z.eqb_refl, IH. reflexivity. Qed.

Lemma strip_space_digits D :
  Forall is_digit D -> strip_z (32%Z :: map cpz D) = map cpz D.
Proof.
  intros HD. unfold strip_z. cbn [lstrip_by]. replace (is_space_cp 32) with true by reflexivity.
  apply strip_keep. intros x Hx. apply in_map_iff in Hx as (d & <- & Hd).
  rewrite Forall_forall in HD. specialize (HD d Hd). unfold is_space_cp. digit_bool (digit_cases d HD).
Qed.

Lemma parse_skip line t :
  zprefix (str_z "content-length") (str_lower uni_lower line) = false ->
  parse_content_length uni_lower uni_decimal max_str_digits (line :: t)
  = parse_content_length uni_lower uni_decimal max_str_digits t.
Proof. intros H. cbn [parse_content_length]. rewrite H. reflexivity. Qed.

Lemma parse_part_header pre D :
  (pre = [] \/ pre = CRLF) -> Forall is_digit D -> D <> [] -> List.length D <= 640 ->
  parse_content_length uni_lower uni_decimal max_str_digits (header_lines (pre ++ part_head ++ D))
  = Len (dval (map cpz D) 0).
Proof.
  intros Hpre HD Hne Hlen.
  set (preL := if (List.length pre =? 0) then [] else [@nil Z]).
  set (lines := preL ++ [str_z "--frame"; str_z "Content-Type: image/jpeg"]).
  set (last := str_z "Content-Length: " ++ map cpz D).
  assert (Hdec : decode_ignore (pre ++ part_head ++ D)
                 = List.concat (map (fun l => l ++ [13; 10]%Z) lines) ++ last).
  { rewrite decode_ascii.
    - rewrite !map_app. destruct Hpre as [-> | ->]; reflexivity.
    - rewrite !Forall_app. repeat split.
      + apply forallb_ascii. destruct Hpre as [-> | ->]; reflexivity.
      + apply forallb_ascii. reflexivity.
      + apply digits_ascii, HD. }
  unfold header_lines, str_split. rewrite Hdec, zsplit_lines.
  - assert (El : zprefix (str_z "content-length")
                   (str_lower uni_lower (str_z "Content-Length: " ++ map cpz D)) = true).
    { rewrite str_lower_app, str_lower_digits by exact HD.
      change (str_lower uni_lower (str_z "Content-Length: ")) with (str_z "content-length" ++ [58; 32]%Z).
      rewrite <- app_assoc. apply zprefix_app. }
    assert (Es : split_once 58 (str_z "Content-Length: " ++ map cpz D)
                 = Some (str_z "Content-Length", 32%Z :: map cpz D)) by reflexivity.
    assert (Eh : forall t, parse_content_length uni_lower uni_decimal max_str_digits (last :: t)
                           = Len (dval (map cpz D) 0)).
    { intros t. unfold last. cbn [parse_content_length]. rewrite El, Es.
      rewrite strip_space_digits, cp_int_digits by assumption. reflexivity. }
    unfold lines, preL. destruct Hpre as [-> | ->]; cbn [List.length Nat.eqb app CRLF];
      rewrite ?parse_skip by reflexivity; exact (Eh []).
  - unfold lines, preL. destruct Hpre as [-> | ->]; cbn;
      repeat constructor; apply not_in_existsb; reflexivity.
  - unfold last. intros Hi. apply in_app_iff in Hi as [Hi|Hi].
    + revert Hi. apply not_in_existsb. reflexivity.
    + revert Hi. apply digits_not_in; [lia | exact HD].
  - rewrite <- Hdec. lia.
Qed.

End Parse.

Lemma byte_eqb_ne x y : Byte.to_nat x <> Byte.to_nat y -> Byte.eqb x y = false.
Proof.
  intros H. destruct (Byte.eqb x y) eqn:E; [|reflexivity].
  apply Byte.byte_dec_bl in E. subst. contradiction.
Qed.

Lemma find0_digits D Y :
  Forall is_digit D -> find0 (D ++ CRLFCRLF ++ Y) CRLFCRLF = Some (List.length D).
Proof.
  induction 1 as [|d t Hd Ht IH]; [reflexivity|].
  cbn [app find0]. unfold CRLFCRLF at 1. cbn [CRLF app starts_with].
  rewrite byte_eqb_ne by (unfold is_digit in Hd; cbn; lia). cbn [andb].
  rewrite IH. reflexivity.
Qed.

Lemma find0_part pre D Y :
  (pre = [] \/ pre = CRLF) -> Forall is_digit D ->
  find0 (pre ++ part_head ++ D ++ CRLFCRLF ++ Y) CRLFCRLF
  = Some (List.length pre + List.length part_head + List.length D).
Proof.
  intros Hpre HD. destruct Hpre as [-> | ->]; remember (D ++ CRLFCRLF ++ Y) as Z eqn:EZ; cbn; subst Z; rewrite find0_digits by exact HD; reflexivity.
Qed.

Lemma header_loop_found buf chunks S k :
  buf ++ List.concat chunks = S -> Forall (fun c => c <> []) chunks ->
  find0 S CRLFCRLF = Some k ->
  exists buf' chunks',
    header_loop buf (map RecvData chunks) = HdrFound buf' k (map RecvData chunks')
    /\ buf' ++ List.concat chunks' = S /\ Forall (fun c => c <> []) chunks'
    /\ k + 4 <= List.length buf'.
Proof.
  revert buf; induction chunks as [|c cs IH]; intros buf Hs Hne Hk.
  - cbn [header_loop map]. rewrite app_nil_r in Hs. subst. rewrite Hk.
    exists S, []. repeat split; [apply app_nil_r | constructor | apply (find0_len _ _ _ Hk)].
  - apply Forall_cons_iff in Hne as [Hc Hcs].
    cbn [header_loop map]. destruct (find0 buf CRLFCRLF) as [k'|] eqn:F.
    + rewrite <- Hs, (find0_app _ (List.concat (c :: cs)) _ _ F) in Hk. inversion Hk; subst k'.
      exists buf, (c :: cs). repeat split; auto. apply (find0_len _ _ _ F).
    + destruct c as [|x c']; [congruence|].
      apply IH; auto. rewrite <- app_assoc. exact Hs.
Qed.

Lemma body_loop_complete rest chunks T n :
  rest ++ List.concat chunks = T -> Forall (fun c => c <> []) chunks -> n <= List.length T ->
  exists rest' chunks',
    body_loop rest (Z.of_nat n) (map RecvData chunks) = (Some rest', map RecvData chunks')
    /\ rest' ++ List.concat chunks' = T /\ Forall (fun c => c <> []) chunks'
    /\ n <= List.length rest'.
Proof.
  revert rest; induction chunks as [|c cs IH]; intros rest Hs Hne Hn.
  - cbn in Hs. rewrite app_nil_r in Hs. subst.
    cbn [body_loop map]. replace (Z.of_nat (List.length T) <? Z.of_nat n)%Z with false
      by (symmetry; apply Z.ltb_ge; lia).
    exists T, []. repeat split; [apply app_nil_r | constructor | exact Hn].
  - apply Forall_cons_iff in Hne as [Hc Hcs].
    cbn [body_loop map]. destruct (Z.of_nat (List.length rest) <? Z.of_nat n)%Z eqn:E.
    + destruct c as [|x c']; [congruence|].
      apply IH; auto. rewrite <- app_assoc. exact Hs.
    + apply Z.ltb_ge in E. exists rest, (c :: cs). repeat split; auto. lia.
Qed.

Lemma firstn_app_le (n : nat) (l m : bytes) :
  n <= List.length l -> firstn n (l ++ m) = firstn n l.
Proof. intros H. rewrite firstn_app. replace (n - List.length l) with 0 by lia. apply app_nil_r. Qed.

Lemma skipn_app_le' (n : nat) (l m : bytes) :
  n <= List.length l -> skipn n (l ++ m) = skipn n l ++ m.
Proof. intros H. rewrite skipn_app. replace (n - List.length l) with 0 by lia. reflexivity. Qed.

Section Reads.

Variable uni_lower : Z -> list Z.
Variable uni_decimal : Z -> option Z.
Variable max_str_digits : nat.
Variable imdecode_ok : bytes -> bool.

Lemma read_one_part st chunks pre p rest :
  chunked (msock st) chunks ->
  (pre = [] \/ pre = CRLF) ->
  mbuf st ++ List.concat chunks = pre ++ frame_bytes p ++ rest ->
  List.length (py_str_nat (List.length p)) <= 640 ->
  exists chunks' pre',
    fst (read_mjpeg_frame uni_lower uni_decimal max_str_digits imdecode_ok st)
      = (if imdecode_ok p then Some p else None)
    /\ chunked (msock (snd (read_mjpeg_frame uni_lower uni_decimal max_str_digits imdecode_ok st))) chunks'
    /\ (pre' = [] \/ pre' = CRLF)
    /\ mbuf (snd (read_mjpeg_frame uni_lower uni_decimal max_str_digits imdecode_ok st))
         ++ List.concat chunks' = pre' ++ rest.
Proof.
  intros [Hsock Hne] Hpre Hs Hlen.
  destruct (py_str_nat_digits (List.length p)) as (Dne & HD & Hval).
  set (D := py_str_nat (List.length p)) in *.
  set (HB := pre ++ part_head ++ D).
  assert (HS : pre ++ frame_bytes p ++ rest = HB ++ CRLFCRLF ++ p ++ CRLF ++ rest).
  { unfold HB, frame_bytes, mjpeg_part, part_head, CRLFCRLF. fold D.
    rewrite <- !app_assoc. reflexivity. }
  rewrite HS in Hs.
  assert (Hk : find0 (HB ++ CRLFCRLF ++ p ++ CRLF ++ rest) CRLFCRLF = Some (List.length HB)).
  { unfold HB. rewrite <- !app_assoc, find0_part by assumption. rewrite !length_app. f_equal. lia. }
  destruct (header_loop_found _ _ _ _ Hs Hne Hk) as (buf & cs1 & Eh & Hs1 & Hne1 & Hl1).
  unfold read_mjpeg_frame. rewrite Hsock, Eh.
  assert (Ehb : firstn (List.length HB) buf = HB).
  { rewrite <- (firstn_app_le _ buf (List.concat cs1)) by lia. rewrite Hs1.
    apply ForwarderFacts.firstn_length_app. }
  assert (Er : skipn (List.length HB + 4) buf ++ List.concat cs1 = p ++ CRLF ++ rest).
  { rewrite <- skipn_app_le' by lia. rewrite Hs1, Nat.add_comm, <- skipn_skipn.
    rewrite ForwarderFacts.skipn_length_app. reflexivity. }
  assert (Eparse : parse_content_length uni_lower uni_decimal max_str_digits (header_lines HB)
                   = Len (Z.of_nat (List.length p))).
  { unfold HB. rewrite parse_part_header by (auto; unfold D; lia). rewrite Hval. reflexivity. }
  rewrite Ehb, Eparse.
  destruct (body_loop_complete _ _ _ (List.length p) Er Hne1) as (rest1 & cs2 & Eb & Hs2 & Hne2 & Hl2).
  { rewrite !length_app. lia. }
  rewrite Eb. cbn zeta.
  assert (Ei : slice_index (List.length rest1) (Z.of_nat (List.length p)) = List.length p).
  { unfold slice_index. replace (0 <=? Z.of_nat (List.length p))%Z with true by (symmetry; apply Z.leb_le; lia).
    apply Nat2Z.id. }
  rewrite Ei.
  assert (Ep : firstn (List.length p) rest1 = p).
  { rewrite <- (firstn_app_le _ rest1 (List.concat cs2)) by lia. rewrite Hs2.
    apply ForwarderFacts.firstn_length_app. }
  assert (Ey : skipn (List.length p) rest1 ++ List.concat cs2 = CRLF ++ rest).
  { rewrite <- skipn_app_le' by lia. rewrite Hs2. apply ForwarderFacts.skipn_length_app. }
  rewrite Ep. cbn [fst snd msock mbuf].
  destruct (starts_with CRLF (skipn (List.length p) rest1)) eqn:Es.
  - exists cs2, []. repeat split; auto.
    apply starts_with_split in Es. rewrite Es in Ey. cbn [List.length CRLF] in Ey |- *.
    rewrite <- app_assoc in Ey. apply app_inv_head in Ey. exact Ey.
  - exists cs2, CRLF. repeat split; auto.
Qed.

Lemma read_frames_parts ps st chunks pre rest :
  chunked (msock st) chunks ->
  (pre = [] \/ pre = CRLF) ->
  mbuf st ++ List.concat chunks = pre ++ List.concat (map frame_bytes ps) ++ rest ->
  Forall (fun p => List.length (py_str_nat (List.length p)) <= 640) ps ->
  fst (read_frames uni_lower uni_decimal max_str_digits imdecode_ok (List.length ps) st)
  = map (fun p => if imdecode_ok p then Some p else None) ps.
Proof.
  revert st chunks pre; induction ps as [|p ps IH]; intros st chunks pre Hc Hpre Hs Hl; [reflexivity|].
  inversion Hl as [|? ? Hp Hps]; subst.
  cbn [List.length read_frames map List.concat] in *.
  rewrite <- app_assoc in Hs.
  destruct (read_one_part st chunks pre p _ Hc Hpre Hs Hp) as (cs' & pre' & E1 & E2 & E3 & E4).
  destruct (read_mjpeg_frame uni_lower uni_decimal max_str_digits imdecode_ok st) as [r st1].
  cbn [fst snd] in *. subst r.
  destruct (read_frames uni_lower uni_decimal max_str_digits imdecode_ok (List.length ps) st1) as [rs st2] eqn:Ef.
  cbn [fst]. f_equal.
  specialize (IH st1 cs' pre' E2 E3 E4 Hps). rewrite Ef in IH. exact IH.
Qed.

(** A fresh connection made by [init_mjpeg_input] whose socket delivers
    the parts [stream_to_client] writes for [ps], cut into any non-empty
    chunks: [read_frame] called [length ps] times returns the JPEG of each
    part in order ([None] where [cv2.imdecode] rejects it). *)
Theorem mjpeg_reader_recovers_frames ps chunks st rest :
  Forall (fun c => c <> []) chunks ->
  List.concat chunks = List.concat (map frame_bytes ps) ++ rest ->
  Forall (fun p => List.length (py_str_nat (List.length p)) <= 640) ps ->
  fst (init_mjpeg_input (Some (map RecvData chunks)) st) = true
  /\ fst (read_frames uni_lower uni_decimal max_str_digits imdecode_ok (List.length ps)
          (snd (init_mjpeg_input (Some (map RecvData chunks)) st)))
     = map (fun p => if imdecode_ok p then Some p else None) ps.
Proof.
  intros Hne Hs Hl. split; [reflexivity|]. cbn [init_mjpeg_input snd].
  apply (read_frames_parts ps _ chunks [] rest); auto.
  - split; [reflexivity | exact Hne].
Qed.

End Reads.

Lemma header_loop_ready buf sock k :
  find0 buf CRLFCRLF = Some k -> header_loop buf sock = HdrFound buf k sock.
Proof. intros H. destruct sock as [|[[|x d]|] t]; cbn [header_loop]; rewrite H; reflexivity. Qed.

Lemma body_loop_short rest chunks n :
  Forall (fun c => c <> []) chunks ->
  (Z.of_nat (List.length rest + List.length (List.concat chunks)) < n)%Z ->
  body_loop rest n (map RecvData chunks) = (None, []).
Proof.
  revert rest; induction chunks as [|c cs IH]; intros rest Hne Hn.
  - cbn in Hn. cbn [body_loop map]. replace (Z.of_nat (List.length rest) <? n)%Z with true
      by (symmetry; apply Z.ltb_lt; lia). reflexivity.
  - apply Forall_cons_iff in Hne as [Hc Hcs].
    cbn [body_loop map]. replace (Z.of_nat (List.length rest) <? n)%Z with true
      by (symmetry; apply Z.ltb_lt; cbn [List.concat] in Hn; rewrite length_app in Hn; lia).
    destruct c as [|x c']; [congruence|].
    apply IH; [exact Hcs|]. cbn [List.concat] in Hn. rewrite !length_app in *. lia.
Qed.

Section Failures.

Variable uni_lower : Z -> list Z.
Variable uni_decimal : Z -> option Z.
Variable max_str_digits : nat.
Variable imdecode_ok : bytes -> bool.

Local Abbreviation read := (read_mjpeg_frame uni_lower uni_decimal max_str_digits imdecode_ok).
Local Abbreviation reads := (read_frames uni_lower uni_decimal max_str_digits imdecode_ok).
Local Abbreviation parse := (parse_content_length uni_lower uni_decimal max_str_digits).

Theorem mjpeg_invalid_length_stalls st sock k n :
  msock st = Some sock ->
  find0 (mbuf st) CRLFCRLF = Some k ->
  parse (header_lines (firstn k (mbuf st))) = LenInvalid ->
  reads n st = (repeat None n, st).
Proof.
  intros Hs Hk Hp.
  assert (E : read st = (None, st)).
  { unfold read_mjpeg_frame. rewrite Hs, (header_loop_ready _ _ _ Hk), Hp.
    destruct st; cbn in *; subst; reflexivity. }
  induction n as [|n IH]; [reflexivity|].
  cbn [read_frames]. rewrite E, IH. reflexivity.
Qed.

Theorem mjpeg_truncated_part_stalls st chunks k len n :
  chunked (msock st) chunks ->
  find0 (mbuf st) CRLFCRLF = Some k ->
  parse (header_lines (firstn k (mbuf st))) = Len len ->
  (Z.of_nat (List.length (skipn (k + 4) (mbuf st)) + List.length (List.concat chunks)) < len)%Z ->
  reads (S n) st = (repeat None (S n), mk_mjpeg (Some []) (mbuf st)).
Proof.
  intros [Hs Hne] Hk Hp Hl.
  assert (E1 : read st = (None, mk_mjpeg (Some []) (mbuf st))).
  { unfold read_mjpeg_frame. rewrite Hs, (header_loop_ready _ _ _ Hk), Hp.
    rewrite body_loop_short by assumption. reflexivity. }
  assert (E2 : read (mk_mjpeg (Some []) (mbuf st)) = (None, mk_mjpeg (Some []) (mbuf st))).
  { unfold read_mjpeg_frame. cbn [msock mbuf]. rewrite (header_loop_ready _ _ _ Hk), Hp.
    rewrite (body_loop_short _ [] len) by (constructor || (cbn in *; lia)). reflexivity. }
  cbn [read_frames]. rewrite E1. f_equal.
  induction n as [|n IH]; [reflexivity|].
  cbn [read_frames]. rewrite E2, IH. reflexivity.
Qed.

End Failures.

Lemma read_one_part_witness :
  exists chunks' pre',
    fst (read_mjpeg_frame (fun _ => []) (fun _ => None) 4300 (fun _ => true)
           (mk_mjpeg (Some (map RecvData [firstn 5 (frame_bytes (b "ab") ++ b "--frame"); skipn 5 (frame_bytes (b "ab") ++ b "--frame")])) []))
      = (if (fun _ : bytes => true) (b "ab") then Some (b "ab") else None)
    /\ chunked (msock (snd (read_mjpeg_frame (fun _ => []) (fun _ => None) 4300 (fun _ => true)
           (mk_mjpeg (Some (map RecvData [firstn 5 (frame_bytes (b "ab") ++ b "--frame"); skipn 5 (frame_bytes (b "ab") ++ b "--frame")])) [])))) chunks'
    /\ (pre' = [] \/ pre' = CRLF)
    /\ mbuf (snd (read_mjpeg_frame (fun _ => []) (fun _ => None) 4300 (fun _ => true)
           (mk_mjpeg (Some (map RecvData [firstn 5 (frame_bytes (b "ab") ++ b "--frame"); skipn 5 (frame_bytes (b "ab") ++ b "--frame")])) [])))
         ++ List.concat chunks' = pre' ++ b "--frame".
Proof.
  apply (read_one_part (fun _ => []) (fun _ => None) 4300 (fun _ => true)
           (mk_mjpeg (Some (map RecvData [firstn 5 (frame_bytes (b "ab") ++ b "--frame"); skipn 5 (frame_bytes (b "ab") ++ b "--frame")])) [])
           [firstn 5 (frame_bytes (b "ab") ++ b "--frame"); skipn 5 (frame_bytes (b "ab") ++ b "--frame")] [] (b "ab") (b "--frame")).
  - split; [reflexivity|]. apply Forall_forall. intros c [<-|[<-|[]]]; vm_compute; discriminate.
  - left; reflexivity.
  - vm_compute. reflexivity.
  - vm_compute. lia.
Defined.

Lemma mjpeg_reader_recovers_frames_witness :
  fst (init_mjpeg_input (Some (map RecvData [firstn 7 (List.concat (map frame_bytes [b "ab"; b "xyz"]) ++ b "--fr"); skipn 7 (List.concat (map frame_bytes [b "ab"; b "xyz"]) ++ b "--fr")])) (mk_mjpeg None []))
    = true
  /\ fst (read_frames (fun _ => []) (fun _ => None) 4300 (fun p : bytes => Nat.eqb (List.length p) 2) 2
          (snd (init_mjpeg_input (Some (map RecvData [firstn 7 (List.concat (map frame_bytes [b "ab"; b "xyz"]) ++ b "--fr"); skipn 7 (List.concat (map frame_bytes [b "ab"; b "xyz"]) ++ b "--fr")])) (mk_mjpeg None []))))
     = [Some (b "ab"); None].
Proof.
  apply (mjpeg_reader_recovers_frames (fun _ => []) (fun _ => None) 4300 (fun p : bytes => Nat.eqb (List.length p) 2)
           [b "ab"; b "xyz"] [firstn 7 (List.concat (map frame_bytes [b "ab"; b "xyz"]) ++ b "--fr"); skipn 7 (List.concat (map frame_bytes [b "ab"; b "xyz"]) ++ b "--fr")] (mk_mjpeg None []) (b "--fr")).
  - apply Forall_forall. intros c [<-|[<-|[]]]; vm_compute; discriminate.
  - vm_compute. reflexivity.
  - repeat constructor; vm_compute; lia.
Defined.

Lemma mjpeg_invalid_length_stalls_witness :
  read_frames (fun _ => []) (fun _ => None) 4300 (fun _ => true) 3
    (mk_mjpeg (Some [RecvData (b "more")]) (b "Content-Length: 12ab" ++ CRLFCRLF ++ b "xyz"))
  = (repeat None 3, mk_mjpeg (Some [RecvData (b "more")]) (b "Content-Length: 12ab" ++ CRLFCRLF ++ b "xyz")).
Proof.
  apply (mjpeg_invalid_length_stalls (fun _ => []) (fun _ => None) 4300 (fun _ => true)
           (mk_mjpeg (Some [RecvData (b "more")]) (b "Content-Length: 12ab" ++ CRLFCRLF ++ b "xyz"))
           [RecvData (b "more")] 20 3); vm_compute; reflexivity.
Defined.

Lemma mjpeg_truncated_part_stalls_witness :
  read_frames (fun _ => []) (fun _ => None) 4300 (fun _ => true) 3
    (mk_mjpeg (Some [RecvData (b "de")]) (b "Content-Length: 9" ++ CRLFCRLF ++ b "abc"))
  = (repeat None 3, mk_mjpeg (Some []) (b "Content-Length: 9" ++ CRLFCRLF ++ b "abc")).
Proof.
  apply (mjpeg_truncated_part_stalls (fun _ => []) (fun _ => None) 4300 (fun _ => true)
           (mk_mjpeg (Some [RecvData (b "de")]) (b "Content-Length: 9" ++ CRLFCRLF ++ b "abc"))
           [b "de"] 17 9 2).
  - split; [reflexivity|]. repeat constructor. discriminate.
  - vm_compute. reflexivity.
  - vm_compute. reflexivity.
  - vm_compute. reflexivity.
Defined.

End MjpegFacts.

Module CommandExtra.
Import Command BytesFacts.

Lemma split_go_nonempty f sep s cur : split_go f sep s cur <> [].
Proof.
  revert s cur; induction f as [|f IH]; intros s cur; cbn; [discriminate|].
  destruct s as [|x t]; [discriminate|]. destruct (starts_with sep (x :: t)); [discriminate|apply IH].
Qed.

Lemma join_split f sep s cur :
  sep <> [] -> List.length s < f -> py_join sep (split_go f sep s cur) = cur ++ s.
Proof.
  intros Hsep. revert s cur; induction f as [|f IH]; intros s cur Hf; [lia|].
  destruct s as [|x t]; cbn [split_go].
  - rewrite app_nil_r. reflexivity.
  - destruct (starts_with sep (x :: t)) eqn:E.
    + pose proof (starts_with_length _ _ E) as Hl.
      pose proof (split_go_nonempty f sep (skipn (List.length sep) (x :: t)) []) as Hne.
      destruct (split_go f sep (skipn (List.length sep) (x :: t)) []) as [|y ys] eqn:Es; [congruence|].
      change (py_join sep (cur :: y :: ys)) with (cur ++ sep ++ py_join sep (y :: ys)).
      rewrite <- Es, IH.
      * cbn [app]. rewrite <- (starts_with_split _ _ E). reflexivity.
      * rewrite length_skipn. destruct sep; [congruence|]. cbn in *. lia.
    + rewrite IH by (cbn in Hf; lia). rewrite <- app_assoc. reflexivity.
Qed.

Section Handler.
Variable json_loads : bytes -> option json.

Theorem set_prompt_split_round_trip data st kv t :
  utf8_valid data = true ->
  json_loads data = Some (JObj kv) ->
  obj_get kv (b "cmd") = Some (JStr (b "set_prompt")) ->
  obj_get kv (b "text") = Some (JStr t) ->
  sent (handle_connection json_loads data st) = [RespOK]
  /\ prompt_text (after (handle_connection json_loads data st)) = JStr t
  /\ py_join (b ", ") (prompts (after (handle_connection json_loads data st))) = t.
Proof.
  intros Hu Hj Hc Ht. unfold handle_connection. rewrite Hu, Hj, Hc, Ht. cbn [negb].
  replace (bytes_eqb (b "set_prompt") (b "set_prompt")) with true by reflexivity.
  cbn iota beta zeta. cbn [sent after prompt_text prompts]. repeat split.
  unfold py_split. apply join_split; [discriminate | lia].
Qed.

Theorem set_prompt_missing_text data st kv :
  utf8_valid data = true ->
  json_loads data = Some (JObj kv) ->
  obj_get kv (b "cmd") = Some (JStr (b "set_prompt")) ->
  obj_get kv (b "text") = None ->
  handle_connection json_loads data st = mk_outcome [RespOK] true (mk_prompt (JStr []) [[]]) true.
Proof.
  intros Hu Hj Hc Ht. unfold handle_connection. rewrite Hu, Hj, Hc, Ht. reflexivity.
Qed.

Theorem set_prompt_non_string_text data st kv v :
  utf8_valid data = true ->
  json_loads data = Some (JObj kv) ->
  obj_get kv (b "cmd") = Some (JStr (b "set_prompt")) ->
  obj_get kv (b "text") = Some v ->
  (forall t, v <> JStr t) ->
  handle_connection json_loads data st
  = mk_outcome [RespError NoAttributeSplit] true (mk_prompt v (prompts st)) true.
Proof.
  intros Hu Hj Hc Ht Hv. unfold handle_connection. rewrite Hu, Hj, Hc, Ht. cbn [negb].
  replace (bytes_eqb (b "set_prompt") (b "set_prompt")) with true by reflexivity.
  cbn iota. destruct v; try reflexivity. exfalso. exact (Hv s eq_refl).
Qed.

Theorem only_set_prompt_changes_state data st :
  after (handle_connection json_loads data st) <> st ->
  exists kv c, json_loads data = Some (JObj kv) /\ obj_get kv (b "cmd") = Some (JStr c)
               /\ bytes_eqb c (b "set_prompt") = true.
Proof.
  unfold handle_connection. intros H.
  destruct (negb (utf8_valid data)); [contradiction|].
  destruct (json_loads data) as [[| | | | |kv]|]; try contradiction.
  destruct (obj_get kv (b "cmd")) as [[| | |c| |]|] eqn:Ec; try contradiction.
  destruct (bytes_eqb c (b "set_prompt")) eqn:Eb; [|contradiction].
  exists kv, c. auto.
Qed.

End Handler.

Lemma set_prompt_split_round_trip_witness :
  sent (handle_connection (fun _ : bytes => Some (JObj [(b "cmd", JStr (b "set_prompt")); (b "text", JStr (b "a, b"))])) (b "x") (mk_prompt JNull [])) = [RespOK]
  /\ prompt_text (after (handle_connection (fun _ : bytes => Some (JObj [(b "cmd", JStr (b "set_prompt")); (b "text", JStr (b "a, b"))])) (b "x") (mk_prompt JNull []))) = JStr (b "a, b")
  /\ py_join (b ", ") (prompts (after (handle_connection (fun _ : bytes => Some (JObj [(b "cmd", JStr (b "set_prompt")); (b "text", JStr (b "a, b"))])) (b "x") (mk_prompt JNull []))))
     = b "a, b".
Proof.
  apply (set_prompt_split_round_trip (fun _ : bytes => Some (JObj [(b "cmd", JStr (b "set_prompt")); (b "text", JStr (b "a, b"))])) (b "x") (mk_prompt JNull [])
           [(b "cmd", JStr (b "set_prompt")); (b "text", JStr (b "a, b"))] (b "a, b")); reflexivity.
Defined.

Lemma set_prompt_missing_text_witness :
  handle_connection (fun _ : bytes => Some (JObj [(b "cmd", JStr (b "set_prompt"))])) (b "x") (mk_prompt JNull [b "cat"])
  = mk_outcome [RespOK] true (mk_prompt (JStr []) [[]]) true.
Proof.
  apply (set_prompt_missing_text (fun _ : bytes => Some (JObj [(b "cmd", JStr (b "set_prompt"))])) (b "x") (mk_prompt JNull [b "cat"])
           [(b "cmd", JStr (b "set_prompt"))]); reflexivity.
Defined.

Lemma set_prompt_non_string_text_witness :
  handle_connection (fun _ : bytes => Some (JObj [(b "cmd", JStr (b "set_prompt")); (b "text", JNum 3)])) (b "x") (mk_prompt JNull [b "cat"])
  = mk_outcome [RespError NoAttributeSplit] true (mk_prompt (JNum 3) [b "cat"]) true.
Proof.
  apply (set_prompt_non_string_text (fun _ : bytes => Some (JObj [(b "cmd", JStr (b "set_prompt")); (b "text", JNum 3)])) (b "x") (mk_prompt JNull [b "cat"])
           [(b "cmd", JStr (b "set_prompt")); (b "text", JNum 3)] (JNum 3)); try reflexivity.
  intros t. discriminate.
Defined.

Lemma only_set_prompt_changes_state_witness :
  exists kv c, (fun _ : bytes => Some (JObj [(b "cmd", JStr (b "set_prompt")); (b "text", JStr (b "a, b"))])) (b "x") = Some (JObj kv) /\ obj_get kv (b "cmd") = Some (JStr c)
               /\ bytes_eqb c (b "set_prompt") = true.
Proof.
  apply (only_set_prompt_changes_state (fun _ : bytes => Some (JObj [(b "cmd", JStr (b "set_prompt")); (b "text", JStr (b "a, b"))])) (b "x") (mk_prompt JNull [])).
  vm_compute. discriminate.
Defined.

End CommandExtra.

Module GatewayExtra.
Import Gateway.
Local Open Scope string_scope.

Lemma split_char_nonempty sep s : split_char sep s <> [].
Proof.
  induction s as [|c s IH]; cbn; [discriminate|].
  destruct (Ascii.eqb c sep); [discriminate|]. destruct (split_char sep s); [discriminate|discriminate].
Qed.

Lemma split_char_app sep s tail :
  ~ In sep (list_ascii_of_string s) ->
  split_char sep (s ++ tail) =
  match split_char sep tail with h :: r => (s ++ h) :: r | [] => [s] end.
Proof.
  induction s as [|c s IH]; intros Hs.
  - cbn [append]. pose proof (split_char_nonempty sep tail).
    destruct (split_char sep tail); [congruence | reflexivity].
  - cbn [append split_char].
    assert (Hc : Ascii.eqb c sep = false) by (apply Ascii.eqb_neq; intros ->; apply Hs; left; reflexivity).
    rewrite Hc, IH by (intros Hi; apply Hs; right; exact Hi).
    destruct (split_char sep tail); reflexivity.
Qed.

Lemma prefix_append s t : String.prefix s (s ++ t) = true.
Proof.
  induction s as [|c s IH]; cbn; [destruct t; reflexivity|].
  destruct (ascii_dec c c) as [_|N]; [exact IH | contradiction].
Qed.

Lemma append_empty_r s : s ++ EmptyString = s.
Proof. induction s as [|c s IH]; cbn; [reflexivity|]. rewrite IH. reflexivity. Qed.

Lemma camera_path_segment s tail :
  ~ In "/"%char (list_ascii_of_string s) ->
  (tail = EmptyString \/ exists t, tail = "/" ++ t) ->
  py_index (split_char "/" ("/camera/" ++ s ++ tail)) 2 = Some s.
Proof.
  intros Hs Ht. cbn [append split_char Ascii.eqb Bool.eqb].
  rewrite split_char_app by exact Hs.
  destruct Ht as [-> | [t ->]]; cbn; rewrite append_empty_r; reflexivity.
Qed.

Lemma nth_error_make_forwarders ports n :
  n < List.length ports ->
  nth_error (make_forwarders ports) n = Some (mk_forwarder n (nth n ports 0%Z)).
Proof.
  unfold make_forwarders. rewrite nth_error_map. intros H.
  assert (G : forall k n, n < List.length ports ->
            nth_error (combine (seq k (List.length ports)) ports) n = Some (k + n, nth n ports 0%Z)).
  { clear n H. induction ports as [|p ps IH]; intros k n H; cbn in H; [lia|].
    destruct n as [|n]; cbn.
    - rewrite Nat.add_0_r. reflexivity.
    - rewrite IH by lia. f_equal. f_equal. lia. }
  rewrite (G 0 n H). reflexivity.
Qed.

Lemma make_forwarders_length ports : List.length (make_forwarders ports) = List.length ports.
Proof. unfold make_forwarders. rewrite length_map, length_combine, length_seq. lia. Qed.

Section Routes.
Variable connected_after_wait : forwarder -> bool.
Variable max_str_digits : nat.

Theorem camera_route_selects_forwarder ports s tail n :
  ~ In "/"%char (list_ascii_of_string s) ->
  (tail = EmptyString \/ exists t, tail = "/" ++ t) ->
  py_int max_str_digits s = Some (Z.of_nat n) ->
  do_GET connected_after_wait max_str_digits (make_forwarders ports) ("/camera/" ++ s ++ tail)
  = if Nat.ltb n (List.length ports) then
      let f := mk_forwarder n (nth n ports 0%Z) in
      if connected_after_wait f then CameraStream f else Unavailable503 f
    else NotFound404.
Proof.
  intros Hs Ht Hi. unfold do_GET.
  replace (String.eqb ("/camera/" ++ s ++ tail) "/") with false by reflexivity.
  rewrite prefix_append.
  unfold serve_camera_stream. rewrite camera_path_segment by assumption. rewrite Hi.
  rewrite make_forwarders_length.
  destruct (Nat.ltb n (List.length ports)) eqn:E.
  - apply Nat.ltb_lt in E.
    replace (Z.of_nat (List.length ports) <=? Z.of_nat n)%Z with false by (symmetry; apply Z.leb_gt; lia).
    unfold py_index. replace (0 <=? Z.of_nat n)%Z with true by (symmetry; apply Z.leb_le; lia).
    rewrite Nat2Z.id, nth_error_make_forwarders by exact E. reflexivity.
  - apply Nat.ltb_ge in E.
    replace (Z.of_nat (List.length ports) <=? Z.of_nat n)%Z with true by (symmetry; apply Z.leb_le; lia).
    reflexivity.
Qed.

Theorem camera_route_bad_id_no_response fwds s tail :
  ~ In "/"%char (list_ascii_of_string s) ->
  (tail = EmptyString \/ exists t, tail = "/" ++ t) ->
  py_int max_str_digits s = None ->
  do_GET connected_after_wait max_str_digits fwds ("/camera/" ++ s ++ tail) = StreamException.
Proof.
  intros Hs Ht Hi. unfold do_GET.
  replace (String.eqb ("/camera/" ++ s ++ tail) "/") with false by reflexivity.
  rewrite prefix_append.
  unfold serve_camera_stream. rewrite camera_path_segment by assumption. rewrite Hi. reflexivity.
Qed.

End Routes.

Lemma camera_route_selects_forwarder_witness :
  do_GET (fun _ => true) 4300 (make_forwarders [5000%Z; 5001%Z]) ("/camera/" ++ "1" ++ EmptyString)
  = if Nat.ltb 1 (List.length [5000%Z; 5001%Z]) then
      let f := mk_forwarder 1 (nth 1 [5000%Z; 5001%Z] 0%Z) in
      if (fun _ : forwarder => true) f then CameraStream f else Unavailable503 f
    else NotFound404.
Proof.
  apply (camera_route_selects_forwarder (fun _ => true) 4300 [5000%Z; 5001%Z] "1" EmptyString 1).
  - cbn. intros [H|[]]. discriminate H.
  - left. reflexivity.
  - reflexivity.
Defined.

(** A minus sign, 5000 zeros and a one: [int()] refuses the 5001 digits. *)
Lemma camera_route_bad_id_no_response_witness :
  do_GET (fun _ => true) 4300 (make_forwarders [5000%Z; 5001%Z])
    ("/camera/" ++ ("-" ++ string_of_list_ascii (repeat "0"%char 5000) ++ "1") ++ EmptyString)
  = StreamException.
Proof.
  apply (camera_route_bad_id_no_response (fun _ => true) 4300 (make_forwarders [5000%Z; 5001%Z])
           ("-" ++ string_of_list_ascii (repeat "0"%char 5000) ++ "1") EmptyString).
  - intros H.
    assert (E : existsb (Ascii.eqb "/"%char)
                  (list_ascii_of_string ("-" ++ string_of_list_ascii (repeat "0"%char 5000) ++ "1"))
                = true)
      by (apply existsb_exists; exists "/"%char; split; [exact H | reflexivity]).
    vm_compute in E. discriminate E.
  - left. reflexivity.
  - vm_compute. reflexivity.
Defined.

End GatewayExtra.

Module RelayExtra.
Import Forwarder Relay.

Section Props.
Variable client : Type.
Variable client_eq_dec : forall x y : client, {x = y} + {x <> y}.
Variable write_ok : client -> bool.

Local Abbreviation stepw := (step client client_eq_dec write_ok).
Local Abbreviation runw := (run client client_eq_dec write_ok).

Lemma step_stopped s e : stopped s -> stopped (fst (stepw s e)) /\ snd (stepw s e) = [].
Proof.
  intros (R & C & P). destruct s as [cn cl bf ph rn]; cbn in R, C, P; subst.
  destruct P as [-> | ->]; destruct e as [|ok|data| |c|]; cbn;
    repeat split; auto.
Qed.

Lemma run_stopped es s : stopped s -> stopped (fst (runw s es)) /\ snd (runw s es) = [].
Proof.
  revert s; induction es as [|e es IH]; intros s H; [split; [exact H | reflexivity]|].
  cbn [run]. destruct (step_stopped s e H) as [H1 W1].
  destruct (stepw s e) as [s1 w1]. cbn [fst snd] in *.
  destruct (IH s1 H1) as [H2 W2]. destruct (runw s1 es) as [s2 w2]. cbn in *. subst. split; auto.
Qed.

Lemma run_exited es s :
  rphase s = Exited -> rphase (fst (runw s es)) = Exited.
Proof.
  revert s; induction es as [|e es IH]; intros s H; [exact H|].
  cbn [run]. destruct (stepw s e) as [s1 w1] eqn:E.
  assert (H1 : rphase s1 = Exited).
  { destruct s as [cn cl bf ph rn]; cbn in H; subst.
    destruct e as [|ok|data| |c|]; cbn in E; injection E as <- _; reflexivity. }
  specialize (IH s1 H1). destruct (runw s1 es) as [s2 w2]. exact IH.
Qed.

(** Once [stop()] has run and the forwarder thread is out of any session
    and not past its loop check, nothing more is written to any client,
    [connected] stays false, and the thread's next loop check makes it
    leave [forward_frames] for good. *)
Theorem relay_exits_after_stop s es :
  running s = false -> connected s = false -> (rphase s = Retrying \/ rphase s = Exited) ->
  snd (run client client_eq_dec write_ok s es) = []
  /\ connected (fst (run client client_eq_dec write_ok s es)) = false
  /\ rphase (fst (run client client_eq_dec write_ok s (EvCheck :: es))) = Exited.
Proof.
  intros R C P.
  destruct (run_stopped es s (conj R (conj C P))) as [(_ & C' & _) W].
  split; [exact W|]. split; [exact C'|].
  cbn [run]. destruct (stepw s EvCheck) as [s1 w1] eqn:E.
  assert (H1 : rphase s1 = Exited).
  { destruct s as [cn cl bf ph rn]; cbn in R, P; subst.
    destruct P as [-> | ->]; cbn in E; injection E as <- _; reflexivity. }
  pose proof (run_exited es s1 H1) as H2. destruct (runw s1 es) as [s2 w2]. exact H2.
Qed.

Lemma send_to_all_dead cl frame d :
  In d (snd (send_to_all client write_ok cl frame)) -> write_ok d = false.
Proof.
  induction cl as [|c cs IH]; cbn; [intros []|].
  destruct (send_to_all client write_ok cs frame) as [w dead] eqn:E. cbn in *.
  destruct (write_ok c) eqn:Ec; [exact IH|]. intros [<-|H]; [exact Ec | exact (IH H)].
Qed.

Lemma py_remove_keeps d c l l' :
  py_remove client client_eq_dec d l = Some l' -> d <> c -> In c l -> In c l'.
Proof.
  revert l'; induction l as [|y t IH]; intros l' H Hd Hc; cbn in H; [discriminate|].
  destruct (client_eq_dec d y) as [<-|N].
  - injection H as <-. destruct Hc as [<-|Hc]; [contradiction | exact Hc].
  - destruct (py_remove client client_eq_dec d t) as [t'|] eqn:E; cbn in H; [|discriminate].
    injection H as <-. destruct Hc as [<-|Hc]; [left; reflexivity | right; exact (IH t' eq_refl Hd Hc)].
Qed.

Lemma remove_each_keeps dead c l l' :
  (forall d, In d dead -> write_ok d = false) -> write_ok c = true ->
  remove_each client client_eq_dec dead l = Some l' -> In c l -> In c l'.
Proof.
  revert l; induction dead as [|d ds IH]; intros l Hd Hc H Hin; cbn in H.
  - injection H as <-. exact Hin.
  - destruct (py_remove client client_eq_dec d l) as [l1|] eqn:E; [|discriminate].
    apply (IH l1); auto.
    + intros x Hx. apply Hd. right. exact Hx.
    + apply (py_remove_keeps d c l l1 E); [|exact Hin].
      intros <-. rewrite (Hd d (or_introl eq_refl)) in Hc. discriminate.
Qed.

Lemma split_frames_keeps f cl buf c w cl' buf' :
  write_ok c = true ->
  split_frames client client_eq_dec write_ok f cl buf = (w, Some (cl', buf')) ->
  In c cl -> In c cl'.
Proof.
  revert cl buf w; induction f as [|f IH]; intros cl buf w Hc H Hin; cbn [split_frames] in H.
  - injection H as _ <- _. exact Hin.
  - destruct (py_contains buf BOUNDARY); [|injection H as _ <- _; exact Hin].
    destruct (py_find buf BOUNDARY (py_find buf BOUNDARY 0 + 9) =? -1)%Z;
      [injection H as _ <- _; exact Hin|].
    unfold fan_out in H.
    destruct (send_to_all client write_ok cl _) as [w0 dead] eqn:Es.
    destruct (remove_each client client_eq_dec dead cl) as [cl1|] eqn:Er; [|discriminate].
    destruct (split_frames client client_eq_dec write_ok f cl1 _) as [w1 r1] eqn:E1.
    injection H as _ ->.
    apply (IH cl1 _ w1 Hc E1).
    apply (remove_each_keeps dead c cl cl1); auto.
    intros d Hd. apply (send_to_all_dead cl (py_slice buf (py_find buf BOUNDARY 0)
      (py_find buf BOUNDARY (py_find buf BOUNDARY 0 + 9)))). rewrite Es. exact Hd.
Qed.

Theorem healthy_consumer_never_dropped s es c :
  write_ok c = true -> In c (clients s) ->
  In c (clients (fst (run client client_eq_dec write_ok s es))).
Proof.
  intros Hc. revert s; induction es as [|e es IH]; intros s Hin; [exact Hin|].
  cbn [run]. destruct (stepw s e) as [s1 w1] eqn:E.
  destruct (runw s1 es) as [s2 w2] eqn:E2. cbn [fst].
  replace s2 with (fst (runw s1 es)) by (rewrite E2; reflexivity). apply IH.
  destruct s as [cn cl bf ph rn]. cbn [clients] in Hin.
  destruct e as [|ok|data| |c'|]; cbn [step clients rphase running connected buffer] in E.
  - destruct ph; try destruct rn; injection E as <- _; exact Hin.
  - destruct ph; try destruct ok; try destruct rn; injection E as <- _; exact Hin.
  - destruct ph; try (injection E as <- _; exact Hin).
    destruct data as [|x d]; [injection E as <- _; exact Hin|].
    destruct (forward_buffer client client_eq_dec write_ok cl (bf ++ x :: d)) as [w [[cl' buf']|]] eqn:F.
    + injection E as <- _. unfold inner_check. cbn [running].
      destruct rn; exact (split_frames_keeps _ _ _ c w cl' buf' Hc F Hin).
    + injection E as <- _. exact Hin.
  - destruct ph; injection E as <- _; exact Hin.
  - injection E as <- _. apply in_or_app. left. exact Hin.
  - injection E as <- _. exact Hin.
Qed.

End Props.

Lemma relay_exits_after_stop_witness :
  snd (run nat Nat.eq_dec (fun _ => true) (mk_relay false [0] [] Retrying false) [EvAddClient 1; EvConnect true; EvRecv (Workers.frame_bytes (b "ab") ++ BOUNDARY); EvCheck]) = []
  /\ connected (fst (run nat Nat.eq_dec (fun _ => true) (mk_relay false [0] [] Retrying false) [EvAddClient 1; EvConnect true; EvRecv (Workers.frame_bytes (b "ab") ++ BOUNDARY); EvCheck])) = false
  /\ rphase (fst (run nat Nat.eq_dec (fun _ => true) (mk_relay false [0] [] Retrying false) (EvCheck :: [EvAddClient 1; EvConnect true; EvRecv (Workers.frame_bytes (b "ab") ++ BOUNDARY); EvCheck]))) = Exited.
Proof.
  apply (relay_exits_after_stop nat Nat.eq_dec (fun _ => true) (mk_relay false [0] [] Retrying false) [EvAddClient 1; EvConnect true; EvRecv (Workers.frame_bytes (b "ab") ++ BOUNDARY); EvCheck]).
  - reflexivity.
  - reflexivity.
  - left. reflexivity.
Defined.

Lemma healthy_consumer_never_dropped_witness :
  In 0 (clients (fst (run nat Nat.eq_dec (fun c => negb (c =? 1))
    (mk_relay true [0; 1] [] Streaming true)
    [EvRecv (BOUNDARY ++ b "a" ++ BOUNDARY); EvAddClient 2; EvRecvError]))).
Proof.
  apply (healthy_consumer_never_dropped nat Nat.eq_dec (fun c => negb (c =? 1))
           (mk_relay true [0; 1] [] Streaming true)
           [EvRecv (BOUNDARY ++ b "a" ++ BOUNDARY); EvAddClient 2; EvRecvError] 0).
  - reflexivity.
  - left. reflexivity.
Defined.

End RelayExtra.

Module WorkerExtra.
Import Workers.

Section Loops.
Variable read_ok : nat -> bool.
Variable reinit_ok : nat -> bool.

Lemma det_stream_inv f s : det_inv s -> det_inv (det_stream read_ok reinit_ok f s).
Proof.
  revert s; induction f as [|f IH]; intros [br rd ri fs rn ex] H; [exact H|].
  unfold det_inv in H. cbn [det_stream exited w_running reads_done bad_reads reinits frames_sent].
  destruct ex; [exact H|]. destruct H as [H1 H2]. cbn in H1, H2.
  destruct rn; cbn [negb].
  - destruct (read_ok rd).
    + apply IH. unfold det_inv. cbn. lia.
    + destruct (10 <=? S br) eqn:E.
      * apply Nat.leb_le in E. destruct (reinit_ok ri).
        -- apply IH. unfold det_inv. cbn. lia.
        -- unfold det_inv. cbn. lia.
      * apply Nat.leb_gt in E. apply IH. unfold det_inv. cbn. lia.
  - unfold det_inv. cbn. lia.
Qed.

Theorem detection_reinit_after_ten_failures f :
  frames_sent (det_stream read_ok reinit_ok f loop_init)
  + 10 * reinits (det_stream read_ok reinit_ok f loop_init)
  <= reads_done (det_stream read_ok reinit_ok f loop_init).
Proof.
  pose proof (det_stream_inv f loop_init ltac:(unfold det_inv; cbn; lia)) as H.
  unfold det_inv in H. destruct (exited _); lia.
Qed.

Lemma det_stream_live f s :
  exited s = false -> w_running s = true -> (forall j, reinit_ok j = true) ->
  exited (det_stream read_ok reinit_ok f s) = false.
Proof.
  intros He Hr Hok. revert s He Hr; induction f as [|f IH]; intros [br rd ri fs rn ex] He Hr;
    cbn in He, Hr; subst; [reflexivity|].
  cbn [det_stream exited w_running reads_done bad_reads reinits frames_sent negb].
  destruct (read_ok rd); [apply IH; reflexivity|].
  destruct (10 <=? S br); [|apply IH; reflexivity].
  rewrite Hok. apply IH; reflexivity.
Qed.

Theorem detection_loop_never_exits_when_reinit_succeeds f :
  (forall j, reinit_ok j = true) ->
  exited (det_stream read_ok reinit_ok f loop_init) = false.
Proof. intros Hok. apply det_stream_live; auto. Qed.

Lemma cam_stream_count n k fs :
  cam_stream read_ok true n (mk_loop 0 k 0 fs true false)
  = mk_loop 0 (k + n) 0 (fs + List.length (filter read_ok (seq k n))) true false.
Proof.
  revert k fs; induction n as [|n IH]; intros k fs; cbn [cam_stream].
  - rewrite Nat.add_0_r, Nat.add_0_r. reflexivity.
  - cbn [exited w_running negb reads_done bad_reads reinits frames_sent seq filter].
    destruct (read_ok k); rewrite IH; cbn [List.length]; f_equal; lia.
Qed.

Theorem camera_loop_sends_successful_reads n :
  cam_stream read_ok true n loop_init
  = mk_loop 0 n 0 (List.length (filter read_ok (seq 0 n))) true false.
Proof. apply (cam_stream_count n 0 0). Qed.

End Loops.

Lemma detection_loop_never_exits_when_reinit_succeeds_witness :
  exited (det_stream (fun _ => false) (fun _ => true) 25 loop_init) = false.
Proof. apply (detection_loop_never_exits_when_reinit_succeeds (fun _ => false) (fun _ => true) 25). intros j. reflexivity. Defined.

End WorkerExtra.
